(** * hxtool: the audio player of hxtool.cc

    A shallow embedding of the playback engine of [src/hxtool.cc]
    (the section marked "Audio player": [AudioClear], [AudioCallback],
    [AudioLoad], [AudioPlay], [QueueAudioEntry]) and the properties of
    it that the specification states; then the code around it: the
    two buttons that drive the engine (in [DrawEntries] and
    [DrawAudioPlayer]) and the rows that [EntryTableTree] makes, with
    what the code shows of sessions from the click to the last byte.

    The C++ globals become the fields of one record, [player]; every
    function takes the record and returns the new one.  Where the C++
    code has no defined result ([front()] of an empty deque, a read
    through a null [data] pointer, a cast of an entry payload to a type
    it does not have) the result is a [Fault].  A mix that runs past
    the end of a stream's buffer goes on, as it does on the machine;
    the bytes it reads there are marked as not being the stream's. *)

From Stdlib Require Import ZArith List Bool Lia String QArith Qround.
From Stdlib Require Import Strings.Byte.
Import ListNotations.
Open Scope string_scope.
Open Scope list_scope.
Open Scope Z_scope.

(** ** Machine integers *)

(** [int] and [unsigned int] are 32 bits wide.  Values are kept in [Z];
    [to_u32] and [to_s32] are the conversions to [unsigned int] and to
    [int], written where the C++ code converts or may wrap. *)

Definition two32 : Z := 4294967296.
Definition INT_MAX : Z := 2147483647.

Definition to_u32 (x : Z) : Z := x mod two32.

Definition to_s32 (x : Z) : Z :=
  let u := to_u32 x in if u <? 2147483648 then u else u - two32.

Definition to_u8 (x : Z) : Z := x mod 256.

(** ** Results *)

Inductive fault : Type :=
| FrontOfEmptyDeque   (* AudioQueue.front() with AudioQueue empty *)
| NullStreamData      (* read through a null [data] pointer *)
| BadPayloadCast.     (* entry payload cast to a type it does not have *)

Inductive outcome (A : Type) : Type :=
| Ok (a : A)
| Fault (f : fault).

Arguments Ok {A} a.
Arguments Fault {A} f.

Definition bind {A B : Type} (m : outcome A) (k : A -> outcome B) : outcome B :=
  match m with
  | Ok a => k a
  | Fault f => Fault f
  end.

Notation "x <- m ;; k" := (bind m (fun x => k))
  (at level 61, m at next level, right associativity).

(** ** Streams (hx2.h) *)

(** hx2.h is not among the sources.  The format tags the program
    names are [HX_FORMAT_PCM] and, in a block that is commented out,
    [HX_FORMAT_DSP]; every other tag is [HX_FORMAT_other]. *)
Inductive hx_format : Type :=
| HX_FORMAT_PCM
| HX_FORMAT_DSP
| HX_FORMAT_other (tag : Z).

Definition hx_format_eqb (a b : hx_format) : bool :=
  match a, b with
  | HX_FORMAT_PCM, HX_FORMAT_PCM => true
  | HX_FORMAT_DSP, HX_FORMAT_DSP => true
  | HX_FORMAT_other x, HX_FORMAT_other y => x =? y
  | _, _ => false
  end.

Record hx_audio_stream_info : Type := mkInfo {
  fmt : hx_format;
  num_channels : Z;
  endianness : Z;
  sample_rate : Z;
  num_samples : Z
}.

(** [data] is a pointer in the source: [None] is the null pointer,
    [Some d] a buffer holding the bytes [d].  [size] is the field of
    the struct, an [unsigned int] of its own. *)
Record hx_audio_stream : Type := mkStream {
  info : hx_audio_stream_info;
  size : Z;
  data : option (list byte);
  wavefile_cuuid : Z
}.

(** Modelled from the spec: [hx_format_name] is declared in hx2.h; the
    spec only says that the codec's name goes into the error. *)
Definition hx_format_name (f : hx_format) : string :=
  match f with
  | HX_FORMAT_PCM => "pcm"
  | HX_FORMAT_DSP => "dsp"
  | HX_FORMAT_other _ => "unknown"
  end.

(** ** Resource entries (hx2.h) *)

Inductive hx_class : Type :=
| HX_CLASS_EVENT_RESOURCE_DATA
| HX_CLASS_WAVE_RESOURCE_DATA
| HX_CLASS_PROGRAM_RESOURCE_DATA
| HX_CLASS_WAVE_FILE_ID_OBJECT
| HX_CLASS_other.

Definition hx_class_eqb (a b : hx_class) : bool :=
  match a, b with
  | HX_CLASS_EVENT_RESOURCE_DATA, HX_CLASS_EVENT_RESOURCE_DATA => true
  | HX_CLASS_WAVE_RESOURCE_DATA, HX_CLASS_WAVE_RESOURCE_DATA => true
  | HX_CLASS_PROGRAM_RESOURCE_DATA, HX_CLASS_PROGRAM_RESOURCE_DATA => true
  | HX_CLASS_WAVE_FILE_ID_OBJECT, HX_CLASS_WAVE_FILE_ID_OBJECT => true
  | HX_CLASS_other, HX_CLASS_other => true
  | _, _ => false
  end.

Record hx_event_resource_data : Type := mkEvent {
  name : string;
  link : Z
}.

Record hx_wav_resource_data : Type := mkWaveRes {
  default_cuuid : Z;
  wav_links : list (Z * Z)        (* (cuuid, language) *)
}.

Record hx_program_resource_data : Type := mkProgram {
  links : list Z
}.

Definition num_links (d : hx_program_resource_data) : Z :=
  Z.of_nat (List.length (links d)).

Record hx_wave_file_id_object : Type := mkWaveFile {
  audio_stream : hx_audio_stream
}.

(** The [void *data] of an entry, with the type of what it points to. *)
Inductive hx_entry_data : Type :=
| event_data (d : hx_event_resource_data)
| wave_resource_data (d : hx_wav_resource_data)
| program_data (d : hx_program_resource_data)
| wave_file_data (d : hx_wave_file_id_object)
| other_data.

Record hx_entry : Type := mkEntry {
  cuuid : Z;
  i_class : hx_class;
  e_data : hx_entry_data
}.

(** The casts of [e->data].  The source casts without a test; a cast
    to a type the payload does not have is a fault. *)
Definition as_event (e : hx_entry) : outcome hx_event_resource_data :=
  match e_data e with event_data d => Ok d | _ => Fault BadPayloadCast end.

Definition as_wave_resource (e : hx_entry) : outcome hx_wav_resource_data :=
  match e_data e with wave_resource_data d => Ok d | _ => Fault BadPayloadCast end.

Definition as_program (e : hx_entry) : outcome hx_program_resource_data :=
  match e_data e with program_data d => Ok d | _ => Fault BadPayloadCast end.

Definition as_wave_file (e : hx_entry) : outcome hx_wave_file_id_object :=
  match e_data e with wave_file_data d => Ok d | _ => Fault BadPayloadCast end.

(** The open resource file: its entries, in index order. *)
Definition hx_t : Type := list hx_entry.

(** Modelled from the spec: [hx_context_find_entry] is declared in
    hx2.h.  Section 6 gives it as [get_entry(handle, id)], which
    answers the entry with that content address or nothing. *)
Definition hx_context_find_entry (hx : hx_t) (id : Z) : option hx_entry :=
  find (fun e => cuuid e =? id) hx.

(** ** The log *)

Inductive LogType : Type := Status | Info | Warning | Error.

Record LogEntry : Type := mkLog { type : LogType; text : string }.

(** ** The audio device (SDL) *)

Inductive SDL_AudioStatus : Type :=
| SDL_AUDIO_STOPPED
| SDL_AUDIO_PLAYING
| SDL_AUDIO_PAUSED.

Definition SDL_AudioStatus_eqb (a b : SDL_AudioStatus) : bool :=
  match a, b with
  | SDL_AUDIO_STOPPED, SDL_AUDIO_STOPPED => true
  | SDL_AUDIO_PLAYING, SDL_AUDIO_PLAYING => true
  | SDL_AUDIO_PAUSED, SDL_AUDIO_PAUSED => true
  | _, _ => false
  end.

(** ** The globals of the player *)

Record player : Type := mkPlayer {
  AudioLength : Z;
  AudioPosition : Z;
  AudioPositionTotal : Z;
  AudioQueueIndex : Z;
  AudioRepeat : bool;
  AudioMixVolume : Q;
  AudioSampleRate : Z;
  AudioChannelCount : Z;
  AudioQueue : list hx_audio_stream;
  AudioSwapQueue : list hx_audio_stream;
  Log : list LogEntry;
  PlayingEvent : option hx_entry;
  (* what SDL_GetAudioStatus() answers *)
  device : SDL_AudioStatus;
  (* the streams handed to hx_audio_stream_dealloc and free, in order *)
  released : list hx_audio_stream
}.

(** The values the globals are initialised with. *)
Definition initial : player :=
  mkPlayer 0 0 0 0 false (1 # 2) 0 0 [] [] [] None SDL_AUDIO_STOPPED [].

Definition set_AudioLength (v : Z) (p : player) : player :=
  mkPlayer v (AudioPosition p) (AudioPositionTotal p) (AudioQueueIndex p)
    (AudioRepeat p) (AudioMixVolume p) (AudioSampleRate p) (AudioChannelCount p)
    (AudioQueue p) (AudioSwapQueue p) (Log p) (PlayingEvent p) (device p) (released p).

Definition set_AudioPosition (v : Z) (p : player) : player :=
  mkPlayer (AudioLength p) v (AudioPositionTotal p) (AudioQueueIndex p)
    (AudioRepeat p) (AudioMixVolume p) (AudioSampleRate p) (AudioChannelCount p)
    (AudioQueue p) (AudioSwapQueue p) (Log p) (PlayingEvent p) (device p) (released p).

Definition set_AudioPositionTotal (v : Z) (p : player) : player :=
  mkPlayer (AudioLength p) (AudioPosition p) v (AudioQueueIndex p)
    (AudioRepeat p) (AudioMixVolume p) (AudioSampleRate p) (AudioChannelCount p)
    (AudioQueue p) (AudioSwapQueue p) (Log p) (PlayingEvent p) (device p) (released p).

Definition set_AudioQueueIndex (v : Z) (p : player) : player :=
  mkPlayer (AudioLength p) (AudioPosition p) (AudioPositionTotal p) v
    (AudioRepeat p) (AudioMixVolume p) (AudioSampleRate p) (AudioChannelCount p)
    (AudioQueue p) (AudioSwapQueue p) (Log p) (PlayingEvent p) (device p) (released p).

Definition set_AudioRepeat (v : bool) (p : player) : player :=
  mkPlayer (AudioLength p) (AudioPosition p) (AudioPositionTotal p) (AudioQueueIndex p)
    v (AudioMixVolume p) (AudioSampleRate p) (AudioChannelCount p)
    (AudioQueue p) (AudioSwapQueue p) (Log p) (PlayingEvent p) (device p) (released p).

Definition set_AudioSampleRate (v : Z) (p : player) : player :=
  mkPlayer (AudioLength p) (AudioPosition p) (AudioPositionTotal p) (AudioQueueIndex p)
    (AudioRepeat p) (AudioMixVolume p) v (AudioChannelCount p)
    (AudioQueue p) (AudioSwapQueue p) (Log p) (PlayingEvent p) (device p) (released p).

Definition set_AudioChannelCount (v : Z) (p : player) : player :=
  mkPlayer (AudioLength p) (AudioPosition p) (AudioPositionTotal p) (AudioQueueIndex p)
    (AudioRepeat p) (AudioMixVolume p) (AudioSampleRate p) v
    (AudioQueue p) (AudioSwapQueue p) (Log p) (PlayingEvent p) (device p) (released p).

Definition set_AudioQueue (v : list hx_audio_stream) (p : player) : player :=
  mkPlayer (AudioLength p) (AudioPosition p) (AudioPositionTotal p) (AudioQueueIndex p)
    (AudioRepeat p) (AudioMixVolume p) (AudioSampleRate p) (AudioChannelCount p)
    v (AudioSwapQueue p) (Log p) (PlayingEvent p) (device p) (released p).

Definition set_AudioSwapQueue (v : list hx_audio_stream) (p : player) : player :=
  mkPlayer (AudioLength p) (AudioPosition p) (AudioPositionTotal p) (AudioQueueIndex p)
    (AudioRepeat p) (AudioMixVolume p) (AudioSampleRate p) (AudioChannelCount p)
    (AudioQueue p) v (Log p) (PlayingEvent p) (device p) (released p).

Definition set_Log (v : list LogEntry) (p : player) : player :=
  mkPlayer (AudioLength p) (AudioPosition p) (AudioPositionTotal p) (AudioQueueIndex p)
    (AudioRepeat p) (AudioMixVolume p) (AudioSampleRate p) (AudioChannelCount p)
    (AudioQueue p) (AudioSwapQueue p) v (PlayingEvent p) (device p) (released p).

Definition set_PlayingEvent (v : option hx_entry) (p : player) : player :=
  mkPlayer (AudioLength p) (AudioPosition p) (AudioPositionTotal p) (AudioQueueIndex p)
    (AudioRepeat p) (AudioMixVolume p) (AudioSampleRate p) (AudioChannelCount p)
    (AudioQueue p) (AudioSwapQueue p) (Log p) v (device p) (released p).

Definition set_device (v : SDL_AudioStatus) (p : player) : player :=
  mkPlayer (AudioLength p) (AudioPosition p) (AudioPositionTotal p) (AudioQueueIndex p)
    (AudioRepeat p) (AudioMixVolume p) (AudioSampleRate p) (AudioChannelCount p)
    (AudioQueue p) (AudioSwapQueue p) (Log p) (PlayingEvent p) v (released p).

Definition set_released (v : list hx_audio_stream) (p : player) : player :=
  mkPlayer (AudioLength p) (AudioPosition p) (AudioPositionTotal p) (AudioQueueIndex p)
    (AudioRepeat p) (AudioMixVolume p) (AudioSampleRate p) (AudioChannelCount p)
    (AudioQueue p) (AudioSwapQueue p) (Log p) (PlayingEvent p) (device p) v.

Definition Log_push_back (e : LogEntry) (p : player) : player :=
  set_Log (Log p ++ [e]) p.

(** Modelled from the spec: the SDL audio device is an external
    library.  Section 6 gives its interface (open, pause, close,
    status) and section 4.4 its three states: closed, open and
    unmuted, open and muted.  A device that is opened starts muted;
    pausing a closed device does nothing; opening an open device
    fails. *)
Definition SDL_GetAudioStatus (p : player) : SDL_AudioStatus := device p.

Definition SDL_CloseAudio (p : player) : player := set_device SDL_AUDIO_STOPPED p.

Definition SDL_PauseAudio (pause_on : bool) (p : player) : player :=
  match device p with
  | SDL_AUDIO_STOPPED => p
  | _ => set_device (if pause_on then SDL_AUDIO_PAUSED else SDL_AUDIO_PLAYING) p
  end.

(** [driver_ok] is the answer of the audio driver, which the program
    does not control. *)
Definition SDL_OpenAudio (driver_ok : bool) (p : player) : player * Z :=
  match device p with
  | SDL_AUDIO_STOPPED =>
      if driver_ok then (set_device SDL_AUDIO_PAUSED p, 0) else (p, -1)
  | _ => (p, -1)
  end.

(** ** AudioClear (hxtool.cc:147) *)

Definition AudioClear (p : player) : player :=
  let p := set_released (released p ++ AudioQueue p) p in
  let p := set_released (released p ++ AudioSwapQueue p) p in
  let p := set_AudioLength 0 p in
  let p := set_AudioPositionTotal 0 p in
  let p := set_AudioQueueIndex 0 p in
  let p := set_AudioQueue [] p in
  set_AudioSwapQueue [] p.

(** ** AudioCallback (hxtool.cc:165) *)

(** What one invocation leaves in the device's buffer: the
    [SDL_memset(stream, 0, len)] of the first line, and the arguments
    of the call of [SDL_MixAudio], if it is reached.  A source byte
    read at or after the end of the stream's buffer is [None]: it is
    not a byte of the stream. *)
Record out_buffer : Type := mkOut {
  zeroed : Z;
  mixed : option (list (option byte) * Z * Z)   (* src, len, volume *)
}.

Definition silence (len : Z) : out_buffer := mkOut len None.

Definition byte_at (d : list byte) (i : Z) : option byte :=
  if i <? 0 then None else nth_error d (Z.to_nat i).

(** The [n] bytes at [d + off]. *)
Definition read_bytes (d : list byte) (off n : Z) : list (option byte) :=
  map (fun k => byte_at d (off + Z.of_nat k)) (seq 0 (Z.to_nat n)).

Definition SDL_MIX_MAXVOLUME : Z := 128.

(** [std::clamp(v, 0.0f, 1.0f)]; a [float] that is a number is a
    rational.  A [float] that is not a number (NaN) is not modelled:
    the variable starts at 0.5 and the slider writes numbers. *)
Definition clamp01 (v : Q) : Q :=
  if Qlt_le_dec v 0 then 0%Q else if Qlt_le_dec 1 v then 1%Q else v.

(** The [int] that [SDL_MixAudio] receives as its volume. *)
Definition mix_volume (p : player) : Z :=
  Qfloor (clamp01 (AudioMixVolume p) * inject_Z SDL_MIX_MAXVOLUME).

(** [unsigned int AudioRemaining = AudioLength - AudioPositionTotal]. *)
Definition AudioRemaining (p : player) : Z :=
  to_u32 (AudioLength p - AudioPositionTotal p).

(** [len = (len > AudioRemaining ? AudioRemaining : len)]: the
    comparison and the conditional are on [unsigned int], the result
    goes back into the [int]. *)
Definition clamp_len (p : player) (len : Z) : Z :=
  to_s32 (if to_u32 len >? AudioRemaining p then AudioRemaining p else to_u32 len).

(** [len] is the length SDL asks for.  [SDL_MixAudio] takes its length
    as [Uint32]; the comparison of [AudioPosition] with the unsigned
    [size] of the head stream is on [unsigned int]. *)
Definition AudioCallback (p : player) (len : Z) : outcome (player * out_buffer) :=
  let requested := len in
  let len := clamp_len p len in
  if len =? 0 then
    if AudioRepeat p then
      let q := set_AudioQueueIndex 0 p in
      let q := set_AudioPosition 0 q in
      let q := set_AudioPositionTotal 0 q in
      let q := set_AudioSwapQueue (AudioQueue p) (set_AudioQueue (AudioSwapQueue p) q) in
      Ok (q, silence requested)
    else
      Ok (SDL_PauseAudio true (AudioClear p), silence requested)
  else
    match AudioQueue p with
    | [] => Fault FrontOfEmptyDeque
    | front :: rest =>
        match data front with
        | None => Fault NullStreamData
        | Some d =>
            let out := mkOut requested
                         (Some (read_bytes d (AudioPosition p) (to_u32 len),
                                to_u32 len, mix_volume p)) in
            let q := set_AudioPosition (to_s32 (AudioPosition p + len)) p in
            let q := set_AudioPositionTotal (to_s32 (AudioPositionTotal p + len)) q in
            if to_u32 (AudioPosition q) >=? size front then
              let q := set_AudioSwapQueue (AudioSwapQueue q ++ [front]) q in
              let q := set_AudioQueue rest q in
              let q := set_AudioQueueIndex (to_s32 (AudioQueueIndex q + 1)) q in
              Ok (set_AudioPosition 0 q, out)
            else Ok (q, out)
        end
    end.

(** ** AudioLoad (hxtool.cc:199) *)

Definition AudioLoad (p : player) (stream : hx_audio_stream) : player * Z :=
  let p :=
    if negb (SDL_AudioStatus_eqb (SDL_GetAudioStatus p) SDL_AUDIO_STOPPED)
    then SDL_CloseAudio (AudioClear p)
    else p in
  match data stream with
  | None =>
      (Log_push_back (mkLog Error "failed to load audio stream: data not loaded!") p, -1)
  | Some _ => (set_AudioQueue (AudioQueue p ++ [stream]) p, 1)
  end.

(** ** AudioPlay (hxtool.cc:214) *)

(** Modelled from the spec: the result of [hx_audio_convert], which is
    declared in hx2.h.  The source only tests whether the [int] it
    returns is negative; the spec names that failure. *)
Inductive convert_result : Type :=
| Converted (o_stream : hx_audio_stream)
| UnsupportedCodec.

(** Modelled from the spec: [hx_audio_convert] is declared in hx2.h and
    defined outside the sources.  Section 4.2: a stream that already
    has the target format is returned as it is; the conversion of any
    other codec fails with [UnsupportedCodec]. *)
Definition hx_audio_convert_spec (i_stream : hx_audio_stream) (target : hx_format)
  : convert_result :=
  if hx_format_eqb (fmt (info i_stream)) target then Converted i_stream
  else UnsupportedCodec.

(** The fields of [SDL_AudioSpec] that the loop of [AudioPlay] writes. *)
Record SDL_AudioSpec : Type := mkSpec { freq : Z; channels : Z }.

Section Player.

(** [hx_audio_convert i_stream o_stream], where the format that
    [o_stream] asks for is its [info.fmt].  [AudioPlay] always asks for
    [HX_FORMAT_PCM]: [o_stream] is the stream itself when it is PCM
    already, and a fresh one with only [info.fmt] set otherwise. *)
Variable hx_audio_convert : hx_audio_stream -> hx_format -> convert_result.

(** The [for (auto enqueued : AudioQueue)] of [AudioPlay].  The range
    is fixed when the loop starts, so the loop visits the streams that
    were queued then, [visit], while its body pops the front of the
    queue and pushes the converted stream at the back.  [None] is the
    [return] inside the loop.

    The body changes the deque that the loop iterates, and the
    iterators of a deque do not survive that.  The passes here are the
    ones the loop makes while the storage of the deque stays where it
    is: one for each stream queued at entry, each on the stream then
    at the front.  On a queue long enough for the deque to move its
    blocks in mid-loop the machine makes other passes; what is stated
    of the counts after a loop that ends is stated for a queue of one
    stream. *)
Fixpoint AudioPlay_loop (visit : list hx_audio_stream) (audio : SDL_AudioSpec)
    (p : player) : player * option SDL_AudioSpec :=
  match visit with
  | [] => (p, Some audio)
  | enqueued :: visit =>
      match hx_audio_convert enqueued HX_FORMAT_PCM with
      | UnsupportedCodec =>
          (Log_push_back
             (mkLog Error ("failed to load audio stream: unsupported codec "
                           ++ hx_format_name (fmt (info enqueued)))%string) p,
           None)
      | Converted pcm =>
          let audio := mkSpec (to_s32 (sample_rate (info pcm)))
                              (to_u8 (num_channels (info pcm))) in
          let p := set_AudioLength (to_s32 (AudioLength p + size pcm)) p in
          let p := set_AudioQueue (tl (AudioQueue p)) p in
          let p := set_AudioQueue (AudioQueue p ++ [pcm]) p in
          AudioPlay_loop visit audio p
      end
  end.

Definition AudioPlay (driver_ok : bool) (p : player) : player :=
  let p :=
    if SDL_AudioStatus_eqb (SDL_GetAudioStatus p) SDL_AUDIO_PLAYING
    then AudioClear p else p in
  match AudioPlay_loop (AudioQueue p) (mkSpec 0 0) p with
  | (p, None) => p
  | (p, Some audio) =>
      let p := set_AudioSampleRate (freq audio) p in
      let p := set_AudioChannelCount (channels audio) p in
      let p := set_AudioPosition 0 p in
      if 0 <? Z.of_nat (List.length (AudioQueue p)) then
        let '(p, r) := SDL_OpenAudio driver_ok p in
        if r <? 0 then p else SDL_PauseAudio false p
      else p
  end.

(** ** QueueAudioEntry (hxtool.cc:271) *)

(** [success |= AudioLoad(...)] on a [bool] and an [int]. *)
Definition or_assign (success : bool) (r : Z) : bool :=
  negb (Z.lor (if success then 1 else 0) r =? 0).

(** The [for] over [progres->links]. *)
Fixpoint QueueAudioEntry_links (hx_ctx : hx_t) (ls : list Z) (success : bool)
    (p : player) : outcome (player * bool) :=
  match ls with
  | [] => Ok (p, success)
  | l :: ls =>
      match hx_context_find_entry hx_ctx l with
      | Some link =>
          waveres <- as_wave_resource link ;;
          match hx_context_find_entry hx_ctx (default_cuuid waveres) with
          | Some link =>
              waveobj <- as_wave_file link ;;
              let '(p, r) := AudioLoad p (audio_stream waveobj) in
              QueueAudioEntry_links hx_ctx ls (or_assign success r) p
          | None => QueueAudioEntry_links hx_ctx ls success p
          end
      | None => QueueAudioEntry_links hx_ctx ls success p
      end
  end.

Definition QueueAudioEntry (hx_ctx : hx_t) (driver_ok : bool) (e : hx_entry)
    (p : player) : outcome player :=
  if hx_class_eqb (i_class e) HX_CLASS_EVENT_RESOURCE_DATA then
    data <- as_event e ;;
    match hx_context_find_entry hx_ctx (link data) with
    | Some link =>
        if hx_class_eqb (i_class link) HX_CLASS_WAVE_RESOURCE_DATA then
          waveres <- as_wave_resource link ;;
          match hx_context_find_entry hx_ctx (default_cuuid waveres) with
          | Some link =>
              waveobj <- as_wave_file link ;;
              let '(p, r) := AudioLoad p (audio_stream waveobj) in
              if negb (r =? 0)
              then Ok (AudioPlay driver_ok (set_PlayingEvent (Some e) p))
              else Ok p
          | None => Ok p
          end
        else if hx_class_eqb (i_class link) HX_CLASS_PROGRAM_RESOURCE_DATA then
          progres <- as_program link ;;
          if 0 <? num_links progres then
            r <- QueueAudioEntry_links hx_ctx (links progres) false p ;;
            let '(p, success) := r in
            if success
            then Ok (AudioPlay driver_ok (set_PlayingEvent (Some e) p))
            else Ok p
          else Ok p
        else Ok p
    | None => Ok p
    end
  else Ok p.

End Player.

(** ** The buttons (hxtool.cc:757 and hxtool.cc:483) *)

Section Buttons.

Variable hx_audio_convert : hx_audio_stream -> hx_format -> convert_result.

(** [PlayingEvent == entry] compares two pointers into the entries of
    the open file.  The cuuid of an entry is its address in the file:
    two such pointers are equal when the cuuids are. *)
Definition same_entry (a b : hx_entry) : bool := cuuid a =? cuuid b.

(** The body of [if (DrawPlayButton(i, ...))] in [DrawEntries]: what
    a click on the button in the row of [entry] does. *)
Definition PlayButton (hx_ctx : hx_t) (driver_ok : bool) (entry : hx_entry)
    (p : player) : outcome player :=
  match PlayingEvent p with
  | Some playing =>
      if same_entry playing entry
         && SDL_AudioStatus_eqb (SDL_GetAudioStatus p) SDL_AUDIO_PLAYING
      then
        let p := AudioClear p in
        let p := set_PlayingEvent None p in
        Ok (SDL_CloseAudio p)
      else QueueAudioEntry hx_audio_convert hx_ctx driver_ok entry p
  | None => QueueAudioEntry hx_audio_convert hx_ctx driver_ok entry p
  end.

(** The body of [if (DrawPlayButton(0, ...))] in [DrawAudioPlayer]:
    what a click on the button of the player does.  The button is
    drawn only while [PlayingEvent] is set. *)
Definition PlayerButton (hx_ctx : hx_t) (driver_ok : bool) (p : player)
  : outcome player :=
  match PlayingEvent p with
  | Some playing =>
      let status := SDL_GetAudioStatus p in
      if 0 <? Z.of_nat (List.length (AudioQueue p)) then
        Ok (SDL_PauseAudio (negb (SDL_AudioStatus_eqb status SDL_AUDIO_PAUSED)) p)
      else QueueAudioEntry hx_audio_convert hx_ctx driver_ok playing p
  | None => Ok p
  end.

End Buttons.

(** ** EntryTableTree (hxtool.cc:522) *)

Section EntryTree.

(** hx2.h is not among the sources: the byte swap and the five
    language codes that the [switch] names are parameters. *)
Variable HX_BYTESWAP32 : Z -> Z.
Variables HX_LANGUAGE_DE HX_LANGUAGE_EN HX_LANGUAGE_ES
          HX_LANGUAGE_FR HX_LANGUAGE_IT : Z.

(** The [switch] on the language of one link: what it pushes on
    [info_v], if anything. *)
Definition language_info (language : Z) : list string :=
  let l := HX_BYTESWAP32 language in
  if l =? HX_LANGUAGE_DE then ["DE"%string]
  else if l =? HX_LANGUAGE_EN then ["EN"%string]
  else if l =? HX_LANGUAGE_ES then ["ES"%string]
  else if l =? HX_LANGUAGE_FR then ["FR"%string]
  else if l =? HX_LANGUAGE_IT then ["IT"%string]
  else [].

(** The vectors [next] and [info_v] when the three [if]s on the class
    of [root] are through.  [tree_open] is what [ImGui::TreeNodeEx]
    answered. *)
Definition EntryTableTree_next (hx_ctx : hx_t) (tree_open : bool) (root : hx_entry)
  : outcome (list (option hx_entry) * list string) :=
  if tree_open then
    r1 <- (if hx_class_eqb (i_class root) HX_CLASS_EVENT_RESOURCE_DATA then
             data <- as_event root ;;
             Ok ([hx_context_find_entry hx_ctx (link data)], [])
           else Ok ([], [])) ;;
    let '(next, info_v) := r1 in
    r2 <- (if hx_class_eqb (i_class root) HX_CLASS_WAVE_RESOURCE_DATA then
             data <- as_wave_resource root ;;
             let next :=
               if negb (default_cuuid data =? 0)
               then next ++ [hx_context_find_entry hx_ctx (default_cuuid data)]
               else next in
             Ok (next ++ map (fun l => hx_context_find_entry hx_ctx (fst l)) (wav_links data),
                 info_v ++ flat_map (fun l => language_info (snd l)) (wav_links data))
           else Ok (next, info_v)) ;;
    let '(next, info_v) := r2 in
    if hx_class_eqb (i_class root) HX_CLASS_PROGRAM_RESOURCE_DATA then
      data <- as_program root ;;
      Ok (next ++ map (hx_context_find_entry hx_ctx) (links data), info_v)
    else Ok (next, info_v)
  else Ok ([], []).

(** The arguments of the recursive calls of the last loop: the entry
    [next.at(i)] and the text [info_v.size() > 0 ? info_v[i] : "--"].
    [info_v[i]] with [i] past the end of [info_v] is not a string of
    [info_v]: it is [None]. *)
Definition EntryTableTree_calls (hx_ctx : hx_t) (tree_open : bool)
    (root : option hx_entry) : outcome (list (option hx_entry * option string)) :=
  match root with
  | None => Ok []
  | Some root =>
      r <- EntryTableTree_next hx_ctx tree_open root ;;
      let '(next, info_v) := r in
      Ok (map (fun i =>
                 (nth i next None,
                  if (0 <? Z.of_nat (List.length info_v))
                  then nth_error info_v i
                  else Some "--"%string))
              (seq 0 (List.length next)))
  end.

End EntryTree.

(** * Definitions for the statements *)

(** ** Log entries *)

(** The entries that [AudioLoad] and [AudioPlay] write. *)
Definition load_error : LogEntry :=
  mkLog Error "failed to load audio stream: data not loaded!".

Definition codec_error (s : hx_audio_stream) : LogEntry :=
  mkLog Error ("failed to load audio stream: unsupported codec "
               ++ hx_format_name (fmt (info s)))%string.

(** ** The loop of AudioPlay *)

(** [converts s o]: the conversion of [s] to PCM succeeds and gives [o]. *)
Definition converts
    (hx_audio_convert : hx_audio_stream -> hx_format -> convert_result)
    (s o : hx_audio_stream) : Prop :=
  hx_audio_convert s HX_FORMAT_PCM = Converted o.

(** [AudioLength] after the loop has added the sizes of [outs]. *)
Definition length_after (outs : list hx_audio_stream) (len : Z) : Z :=
  fold_left (fun acc o => to_s32 (acc + size o)) outs len.

(** The [SDL_AudioSpec] after the loop has seen [outs]. *)
Definition spec_after (outs : list hx_audio_stream) (audio : SDL_AudioSpec)
  : SDL_AudioSpec :=
  fold_left (fun _ o => mkSpec (to_s32 (sample_rate (info o)))
                               (to_u8 (num_channels (info o)))) outs audio.

(** The conversions that the loop of [AudioPlay] obtains before it
    ends or returns. *)
Fixpoint converted_prefix
    (hx_audio_convert : hx_audio_stream -> hx_format -> convert_result)
    (visit : list hx_audio_stream) : list hx_audio_stream :=
  match visit with
  | [] => []
  | s :: visit =>
      match hx_audio_convert s HX_FORMAT_PCM with
      | Converted o => o :: converted_prefix hx_audio_convert visit
      | UnsupportedCodec => []
      end
  end.

(** [size] is unsigned. *)
Definition sizes_ok (l : list hx_audio_stream) : Prop :=
  Forall (fun s => 0 <= size s) l.

Definition total_size (l : list hx_audio_stream) : Z :=
  fold_right (fun s acc => size s + acc) 0 l.

(** The lengths that [AudioPlay] adds to [AudioLength] are sizes, and
    the sum is a number that the [int] holds. *)
Definition play_fits
    (hx_audio_convert : hx_audio_stream -> hx_format -> convert_result)
    (p : player) : Prop :=
  sizes_ok (converted_prefix hx_audio_convert (AudioQueue p)) /\
  AudioLength p + total_size (converted_prefix hx_audio_convert (AudioQueue p)) <= INT_MAX.

(** ** The loop of QueueAudioEntry *)

(** The stream that one pass of the loop over [progres->links] hands
    to [AudioLoad] for the link [l], if it gets that far: the stream
    of the entry that the default link of the entry [l] names. *)
Definition resolve_link (hx : hx_t) (l : Z) : option hx_audio_stream :=
  match hx_context_find_entry hx l with
  | Some e =>
      match e_data e with
      | wave_resource_data w =>
          match hx_context_find_entry hx (default_cuuid w) with
          | Some f =>
              match e_data f with
              | wave_file_data o => Some (audio_stream o)
              | _ => None
              end
          | None => None
          end
      | _ => None
      end
  | None => None
  end.

(** The streams of the links that resolve, in the order of the links. *)
Definition resolved (hx : hx_t) (ls : list Z) : list hx_audio_stream :=
  flat_map (fun l => match resolve_link hx l with Some s => [s] | None => [] end) ls.

(** The entries that the loop reaches from [l] have the payloads that
    the loop casts them to. *)
Definition link_typed (hx : hx_t) (l : Z) : bool :=
  match hx_context_find_entry hx l with
  | Some e =>
      match e_data e with
      | wave_resource_data w =>
          match hx_context_find_entry hx (default_cuuid w) with
          | Some f => match e_data f with wave_file_data _ => true | _ => false end
          | None => true
          end
      | _ => false
      end
  | None => true
  end.

Definition has_data (s : hx_audio_stream) : bool :=
  match data s with Some _ => true | None => false end.

Definition is_nil {A : Type} (l : list A) : bool :=
  match l with [] => true | _ => false end.

(** The player after [AudioLoad] of each of [streams], device stopped:
    the streams with data are at the tail of the queue, in order, and
    there is one error in the log for each stream without data. *)
Definition loaded (streams : list hx_audio_stream) (p : player) : player :=
  set_Log (Log p ++ map (fun _ => load_error) (filter (fun s => negb (has_data s)) streams))
    (set_AudioQueue (AudioQueue p ++ filter has_data streams) p).

(** What the first [AudioLoad] of a batch does to an open device. *)
Definition settle (p : player) : player :=
  match SDL_GetAudioStatus p with
  | SDL_AUDIO_STOPPED => p
  | _ => SDL_CloseAudio (AudioClear p)
  end.

(** ** Sessions *)

(** [n] invocations of the callback, each for [len] bytes, and what
    each left in the device's buffer. *)
Fixpoint callbacks (n : nat) (len : Z) (p : player)
  : outcome (player * list out_buffer) :=
  match n with
  | O => Ok (p, [])
  | S n =>
      r <- AudioCallback p len ;;
      let '(q, out) := r in
      r' <- callbacks n len q ;;
      let '(q', outs) := r' in
      Ok (q', out :: outs)
  end.

(** What the program does to the player: [QueueAudioEntry] loads
    streams and then plays, with the device stopped by the load; SDL
    runs the callback while the device plays; the buttons pause,
    resume and stop; the checkbox sets [AudioRepeat]. *)
Inductive step (hx_audio_convert : hx_audio_stream -> hx_format -> convert_result)
  : player -> player -> Prop :=
| step_AudioLoad (p : player) (s : hx_audio_stream) :
    0 <= size s ->
    step hx_audio_convert p (fst (AudioLoad p s))
| step_AudioPlay (p : player) (driver_ok : bool) :
    SDL_GetAudioStatus p = SDL_AUDIO_STOPPED ->
    play_fits hx_audio_convert p ->
    step hx_audio_convert p (AudioPlay hx_audio_convert driver_ok p)
| step_AudioCallback (p : player) (len : Z) (q : player) (out : out_buffer) :
    SDL_GetAudioStatus p = SDL_AUDIO_PLAYING ->
    AudioCallback p len = Ok (q, out) ->
    step hx_audio_convert p q
| step_pause (p : player) (pause_on : bool) :
    step hx_audio_convert p (SDL_PauseAudio pause_on p)
| step_stop (p : player) :
    step hx_audio_convert p (SDL_CloseAudio (set_PlayingEvent None (AudioClear p)))
| step_repeat (p : player) (b : bool) :
    step hx_audio_convert p (set_AudioRepeat b p).

(** The states that the program gets to from its start. *)
Inductive reachable (hx_audio_convert : hx_audio_stream -> hx_format -> convert_result)
  : player -> Prop :=
| reachable_initial : reachable hx_audio_convert initial
| reachable_step (p q : player) :
    reachable hx_audio_convert p -> step hx_audio_convert p q ->
    reachable hx_audio_convert q.

(** The offset into the head stream is inside the stream. *)
Definition head_bound (p : player) : Prop :=
  match AudioQueue p with
  | [] => True
  | front :: _ =>
      0 <= AudioPosition p <= AudioPositionTotal p /\ AudioPosition p <= size front
  end.

(** What holds of the counters in every state the program gets to. *)
Definition Inv (p : player) : Prop :=
  0 <= AudioPositionTotal p <= AudioLength p /\
  AudioLength p <= INT_MAX /\
  sizes_ok (AudioQueue p) /\
  sizes_ok (AudioSwapQueue p) /\
  (SDL_GetAudioStatus p <> SDL_AUDIO_STOPPED -> head_bound p).

(** ** A cycle of the repeat *)

(** The player of [p] in mid-session: offset, delivered bytes, index
    and the two queues are given, the rest is [p]'s. *)
Definition session (p : player) (pos total idx : Z)
    (pending played : list hx_audio_stream) : player :=
  set_AudioPosition pos
    (set_AudioPositionTotal total
       (set_AudioQueueIndex idx
          (set_AudioQueue pending (set_AudioSwapQueue played p)))).

(** The buffer after the callback has mixed the [len] bytes at
    offset [off] of [d]. *)
Definition chunk (p : player) (len : Z) (d : list byte) (off : Z) : out_buffer :=
  mkOut len (Some (read_bytes d off len, len, mix_volume p)).

(** The buffer of [s] holds [size s] bytes, and these are a whole
    number of buffers of [len] bytes, at least one. *)
Definition aligned (len : Z) (s : hx_audio_stream) : Prop :=
  exists d k, data s = Some d /\ size s = Z.of_nat (List.length d) /\
              size s = Z.of_nat (S k) * len.

(** The buffers that deliver [s], [len] bytes each. *)
Definition stream_buffers (p : player) (len : Z) (s : hx_audio_stream)
  : list out_buffer :=
  match data s with
  | Some d =>
      map (fun i => chunk p len d (Z.of_nat i * len))
          (seq 0 (Z.to_nat (size s / len)))
  | None => []
  end.

(** [AudioQueueIndex] after [n] streams have left the pending queue. *)
Definition index_after (n : nat) (idx : Z) : Z :=
  Nat.iter n (fun i => to_s32 (i + 1)) idx.

(** The number of invocations that deliver the streams of [l]. *)
Definition buffers (len : Z) (l : list hx_audio_stream) : nat :=
  fold_right (fun s n => (Z.to_nat (size s / len) + n)%nat) 0%nat l.

(** ** Delivery *)

(** Invocations of the callback with the lengths [lens], in order. *)
Fixpoint callbacks_seq (lens : list Z) (p : player)
  : outcome (player * list out_buffer) :=
  match lens with
  | [] => Ok (p, [])
  | len :: lens =>
      r <- AudioCallback p len ;;
      let '(q, out) := r in
      r' <- callbacks_seq lens q ;;
      let '(q', outs) := r' in
      Ok (q', out :: outs)
  end.

(** The source bytes that went into the buffers [outs], in order. *)
Definition mixed_bytes (out : out_buffer) : list (option byte) :=
  match mixed out with
  | Some (src, _, _) => src
  | None => []
  end.

Definition delivered (outs : list out_buffer) : list (option byte) :=
  flat_map mixed_bytes outs.

(** A stream whose [size] is the length of its buffer. *)
Definition wf_stream (s : hx_audio_stream) : Prop :=
  exists d, data s = Some d /\ size s = Z.of_nat (List.length d).

Definition stream_bytes (s : hx_audio_stream) : list byte :=
  match data s with Some d => d | None => [] end.

(** The bytes of the pending queue that have not been mixed. *)
Definition pending_bytes (p : player) : list byte :=
  skipn (Z.to_nat (AudioPosition p)) (flat_map stream_bytes (AudioQueue p)).

(** The counters agree with the queues: [AudioLength] is the size of
    all streams, [AudioPositionTotal] the size of the played ones plus
    the offset into the head, and the offset is short of the end of
    the head. *)
Definition books_ok (p : player) : Prop :=
  Forall wf_stream (AudioSwapQueue p ++ AudioQueue p) /\
  AudioLength p = total_size (AudioSwapQueue p) + total_size (AudioQueue p) /\
  AudioLength p <= INT_MAX /\
  AudioPositionTotal p = total_size (AudioSwapQueue p) + AudioPosition p /\
  match AudioQueue p with
  | [] => AudioPosition p = 0
  | front :: _ => AudioPosition p = 0 \/ 0 < AudioPosition p < size front
  end.

(** The length that the callback will mix is within what is left of
    the head stream. *)
Definition fits (p : player) (len : Z) : Prop :=
  match AudioQueue p with
  | [] => True
  | front :: _ =>
      Z.min len (AudioLength p - AudioPositionTotal p) <= size front - AudioPosition p
  end.

(** A length that SDL asks for. *)
Definition valid_len (len : Z) : Prop := 0 < len <= INT_MAX.

Definition sum_lens (lens : list Z) : Z := fold_right Z.add 0 lens.

(** ** Clicks *)

Inductive click : Type :=
| click_play (entry : hx_entry) (driver_ok : bool)
| click_player (driver_ok : bool)
| click_repeat (b : bool).

Definition do_click
    (hx_audio_convert : hx_audio_stream -> hx_format -> convert_result)
    (hx_ctx : hx_t) (c : click) (p : player) : outcome player :=
  match c with
  | click_play entry driver_ok => PlayButton hx_audio_convert hx_ctx driver_ok entry p
  | click_player driver_ok => PlayerButton hx_audio_convert hx_ctx driver_ok p
  | click_repeat b => Ok (set_AudioRepeat b p)
  end.

Fixpoint do_clicks
    (hx_audio_convert : hx_audio_stream -> hx_format -> convert_result)
    (hx_ctx : hx_t) (cs : list click) (p : player) : outcome player :=
  match cs with
  | [] => Ok p
  | c :: cs =>
      q <- do_click hx_audio_convert hx_ctx c p ;;
      do_clicks hx_audio_convert hx_ctx cs q
  end.

(** The head of the queue is a stream that does not convert, and the
    device is closed. *)
Definition wedged
    (hx_audio_convert : hx_audio_stream -> hx_format -> convert_result)
    (p : player) : Prop :=
  SDL_GetAudioStatus p = SDL_AUDIO_STOPPED /\
  exists bad rest,
    AudioQueue p = bad :: rest /\
    hx_audio_convert bad HX_FORMAT_PCM = UnsupportedCodec.

(** ** Entries that start nothing *)

(** The ways in which [QueueAudioEntry] gets to none of its calls of
    [AudioLoad]: [e] is not an event; its link names no entry; the
    entry its link names is neither a wave resource nor a program; it
    is a wave resource whose default link names no entry. *)
Inductive nothing_to_play (hx : hx_t) (e : hx_entry) : Prop :=
| not_an_event :
    i_class e <> HX_CLASS_EVENT_RESOURCE_DATA -> nothing_to_play hx e
| link_dangles (ev : hx_event_resource_data) :
    e_data e = event_data ev ->
    hx_context_find_entry hx (link ev) = None ->
    nothing_to_play hx e
| link_of_other_class (ev : hx_event_resource_data) (lnk : hx_entry) :
    e_data e = event_data ev ->
    hx_context_find_entry hx (link ev) = Some lnk ->
    i_class lnk <> HX_CLASS_WAVE_RESOURCE_DATA ->
    i_class lnk <> HX_CLASS_PROGRAM_RESOURCE_DATA ->
    nothing_to_play hx e
| default_dangles (ev : hx_event_resource_data) (lnk : hx_entry)
    (w : hx_wav_resource_data) :
    e_data e = event_data ev ->
    hx_context_find_entry hx (link ev) = Some lnk ->
    i_class lnk = HX_CLASS_WAVE_RESOURCE_DATA ->
    e_data lnk = wave_resource_data w ->
    hx_context_find_entry hx (default_cuuid w) = None ->
    nothing_to_play hx e.

(** * Sample inputs *)

(** A stereo stream, 44100 Hz, over the bytes [d]. *)
Definition stream_of (id : Z) (f : hx_format) (d : list byte) : hx_audio_stream :=
  mkStream (mkInfo f 2 0 44100 (Z.of_nat (List.length d) / 4))
           (Z.of_nat (List.length d)) (Some d) id.

(** A stream of eight bytes. *)
Definition tone : hx_audio_stream :=
  stream_of 1 HX_FORMAT_PCM (repeat x01 8).

(** A stream of two bytes. *)
Definition blip : hx_audio_stream := stream_of 9 HX_FORMAT_PCM (repeat x09 2).

(** A stream whose buffer was allocated and holds no byte, and one
    whose [data] is the null pointer. *)
Definition empty_stream : hx_audio_stream :=
  mkStream (mkInfo HX_FORMAT_PCM 2 0 44100 0) 0 (Some []) 7.

Definition null_stream : hx_audio_stream :=
  mkStream (mkInfo HX_FORMAT_PCM 2 0 44100 0) 0 None 8.

(** The state on which [AudioPosition] is 5 and everything else is as
    the program starts. *)
Definition mid_stream : player := set_AudioPosition 5 initial.

(** A session that plays [tone] and has delivered four of its bytes. *)
Definition playing_tone : player :=
  mkPlayer 8 4 4 0 false (1 # 2) 44100 2 [tone] [] [] None SDL_AUDIO_PLAYING [].

(** The session of [playing_tone] after the callback has delivered
    the other four bytes of [tone]. *)
Definition tone_delivered : player :=
  mkPlayer 8 0 8 1 false (1 # 2) 44100 2 [] [tone] [] None SDL_AUDIO_PLAYING [].

(** Three queued streams; the second one is not PCM. *)
Definition opening : hx_audio_stream := stream_of 1 HX_FORMAT_PCM (repeat x01 4).
Definition verse : hx_audio_stream := stream_of 2 HX_FORMAT_DSP (repeat x02 4).
Definition closing : hx_audio_stream := stream_of 3 HX_FORMAT_PCM (repeat x03 4).

(** The three of them queued, before [AudioPlay]. *)
Definition batch : player := set_AudioQueue [opening; verse; closing] initial.

(** Scenario B of the specification: an event, its program with three
    links of which the second names no entry, and two wave files of
    500 and 700 bytes. *)
Definition wave_500 : hx_audio_stream := stream_of 401 HX_FORMAT_PCM (repeat x01 500).
Definition wave_700 : hx_audio_stream := stream_of 402 HX_FORMAT_PCM (repeat x02 700).

Definition event_E : hx_entry :=
  mkEntry 100 HX_CLASS_EVENT_RESOURCE_DATA (event_data (mkEvent "E" 200)).

Definition scenario_B : hx_t :=
  [ event_E;
    mkEntry 200 HX_CLASS_PROGRAM_RESOURCE_DATA (program_data (mkProgram [301; 999; 302]));
    mkEntry 301 HX_CLASS_WAVE_RESOURCE_DATA (wave_resource_data (mkWaveRes 401 []));
    mkEntry 302 HX_CLASS_WAVE_RESOURCE_DATA (wave_resource_data (mkWaveRes 402 []));
    mkEntry 401 HX_CLASS_WAVE_FILE_ID_OBJECT (wave_file_data (mkWaveFile wave_500));
    mkEntry 402 HX_CLASS_WAVE_FILE_ID_OBJECT (wave_file_data (mkWaveFile wave_700)) ].

(** A mono stream of three samples (6 bytes) and a stereo stream of
    two frames (8 bytes), loaded and played with repeat on.  The device
    is opened with the two channels of the last stream and one frame
    per buffer: the callback is asked for 4 bytes. *)
Definition first_part : hx_audio_stream :=
  mkStream (mkInfo HX_FORMAT_PCM 1 0 44100 3) 6 (Some (repeat x0a 6)) 11.

Definition second_part : hx_audio_stream :=
  mkStream (mkInfo HX_FORMAT_PCM 2 0 44100 2) 8 (Some (repeat x0b 8)) 12.

Definition looping : player :=
  AudioPlay hx_audio_convert_spec true
    (fst (AudioLoad (fst (AudioLoad (set_AudioRepeat true initial) first_part))
            second_part)).

(** [tone] loaded and played while the driver refuses to open the
    device, then loaded and played again. *)
Definition replayed : player :=
  AudioPlay hx_audio_convert_spec true
    (fst (AudioLoad
            (AudioPlay hx_audio_convert_spec false (fst (AudioLoad initial tone)))
            tone)).



(** A session whose head stream, two bytes, is shorter than the four
    bytes the device asks for. *)
Definition short_head : player :=
  mkPlayer 10 0 0 0 false (1 # 2) 44100 2 [blip; tone] [] [] None SDL_AUDIO_PLAYING [].

(** One PCM stream loaded, before [AudioPlay]. *)
Definition one_loaded : player := set_AudioQueue [opening] initial.

(** Two more events for [scenario_B]: one whose link names the wave
    resource 301, one whose link names no entry. *)
Definition event_W : hx_entry :=
  mkEntry 101 HX_CLASS_EVENT_RESOURCE_DATA (event_data (mkEvent "W" 301)).

Definition event_D : hx_entry :=
  mkEntry 102 HX_CLASS_EVENT_RESOURCE_DATA (event_data (mkEvent "D" 999)).

(** [tone] is played and the device is paused. *)
Definition paused_tone : player := SDL_PauseAudio true playing_tone.

(** The player after [verse], which does not convert, was loaded and
    played. *)
Definition stuck : player :=
  AudioPlay hx_audio_convert_spec true (fst (AudioLoad initial verse)).

(** An event whose wave file holds [verse], which does not convert. *)
Definition scenario_V : hx_t :=
  [ mkEntry 310 HX_CLASS_WAVE_RESOURCE_DATA (wave_resource_data (mkWaveRes 410 []));
    mkEntry 410 HX_CLASS_WAVE_FILE_ID_OBJECT (wave_file_data (mkWaveFile verse)) ].

Definition event_V : hx_entry :=
  mkEntry 103 HX_CLASS_EVENT_RESOURCE_DATA (event_data (mkEvent "V" 310)).

(** Two wave resources with an English and a French link, the second
    one with a default link as well. *)
Definition voices : hx_entry :=
  mkEntry 320 HX_CLASS_WAVE_RESOURCE_DATA
    (wave_resource_data (mkWaveRes 0 [(401, 2); (402, 4)])).

Definition voices_with_default : hx_entry :=
  mkEntry 321 HX_CLASS_WAVE_RESOURCE_DATA
    (wave_resource_data (mkWaveRes 401 [(401, 2); (402, 4)])).

(** * Properties *)

(** ** Machine integers *)

Lemma to_u32_range (x : Z) : 0 <= to_u32 x < two32.
Proof. unfold to_u32, two32. apply Z.mod_pos_bound. lia. Qed.

Lemma to_u32_small (x : Z) : 0 <= x < two32 -> to_u32 x = x.
Proof. intros H. unfold to_u32. apply Z.mod_small. exact H. Qed.

Lemma to_s32_small (x : Z) : 0 <= x <= INT_MAX -> to_s32 x = x.
Proof.
  unfold INT_MAX. intros H. unfold to_s32.
  rewrite to_u32_small by (unfold two32; lia).
  destruct (x <? 2147483648) eqn:E; [reflexivity|].
  apply Z.ltb_ge in E. lia.
Qed.

Lemma to_s32_0 : to_s32 0 = 0.
Proof. reflexivity. Qed.

(** The clamped length is the smaller of the request and of what
    remains, as long as both are counts an [int] holds. *)
Lemma clamp_len_min (p : player) (len : Z) :
  0 <= len <= INT_MAX ->
  0 <= AudioPositionTotal p <= AudioLength p ->
  AudioLength p <= INT_MAX ->
  clamp_len p len = Z.min len (AudioLength p - AudioPositionTotal p).
Proof.
  unfold INT_MAX. intros Hl Ht Hm. unfold clamp_len, AudioRemaining.
  rewrite !to_u32_small by (unfold two32; lia).
  destruct (len >? AudioLength p - AudioPositionTotal p) eqn:E.
  - apply Z.gtb_lt in E. rewrite to_s32_small by (unfold INT_MAX; lia). lia.
  - rewrite Z.gtb_ltb in E. apply Z.ltb_ge in E.
    rewrite to_s32_small by (unfold INT_MAX; lia). lia.
Qed.

Lemma clamp_len_drained (p : player) (len : Z) :
  AudioRemaining p = 0 -> clamp_len p len = 0.
Proof.
  intros H. unfold clamp_len. rewrite H.
  pose proof (to_u32_range len) as R.
  destruct (to_u32 len >? 0) eqn:E; [reflexivity|].
  rewrite Z.gtb_ltb in E. apply Z.ltb_ge in E.
  replace (to_u32 len) with 0 by lia. reflexivity.
Qed.

(** ** AudioClear *)

Lemma AudioClear_fields (p : player) :
  AudioQueue (AudioClear p) = [] /\
  AudioSwapQueue (AudioClear p) = [] /\
  released (AudioClear p) = released p ++ AudioQueue p ++ AudioSwapQueue p /\
  AudioLength (AudioClear p) = 0 /\
  AudioPositionTotal (AudioClear p) = 0 /\
  AudioQueueIndex (AudioClear p) = 0.
Proof.
  destruct p; cbn. rewrite <- app_assoc. repeat split; reflexivity.
Qed.

Lemma AudioClear_keeps (p : player) :
  AudioPosition (AudioClear p) = AudioPosition p /\
  AudioRepeat (AudioClear p) = AudioRepeat p /\
  AudioMixVolume (AudioClear p) = AudioMixVolume p /\
  Log (AudioClear p) = Log p /\
  device (AudioClear p) = device p.
Proof. destruct p; cbn. repeat split; reflexivity. Qed.

(** C6, as stated, fails: [AudioClear] does not write [AudioPosition];
    the offset left by the last session survives it. *)
Lemma AudioClear_offset_survives :
  AudioPosition (AudioClear mid_stream) = 5 /\
  ~ (forall p, AudioPosition (AudioClear p) = 0).
Proof.
  split; [reflexivity|]. intros H. specialize (H mid_stream). discriminate H.
Qed.

(** C6 (amended): [AudioClear] releases every pending and every played
    stream, empties both queues and sets [AudioLength],
    [AudioPositionTotal] and [AudioQueueIndex] to zero; it leaves
    [AudioPosition] as it was.  With both queues empty it releases
    nothing, and clearing twice gives the state that clearing once
    gives. *)
Theorem AudioClear_spec (p : player) :
  AudioQueue (AudioClear p) = [] /\
  AudioSwapQueue (AudioClear p) = [] /\
  released (AudioClear p) = released p ++ AudioQueue p ++ AudioSwapQueue p /\
  AudioLength (AudioClear p) = 0 /\
  AudioPositionTotal (AudioClear p) = 0 /\
  AudioQueueIndex (AudioClear p) = 0 /\
  AudioPosition (AudioClear p) = AudioPosition p /\
  released (AudioClear (AudioClear p)) = released (AudioClear p) /\
  AudioClear (AudioClear p) = AudioClear p.
Proof.
  destruct (AudioClear_fields p) as (Hq & Hs & Hr & Hl & Ht & Hi).
  destruct (AudioClear_keeps p) as (Hp & _).
  assert (Hidem : AudioClear (AudioClear p) = AudioClear p).
  { destruct p; unfold AudioClear; simpl. rewrite !app_nil_r. reflexivity. }
  repeat split; try assumption.
  rewrite Hidem. reflexivity.
Qed.

(** ** AudioLoad *)

Lemma AudioLoad_stopped (p : player) (s : hx_audio_stream) :
  SDL_GetAudioStatus p = SDL_AUDIO_STOPPED ->
  AudioLoad p s =
    match data s with
    | None => (Log_push_back load_error p, -1)
    | Some _ => (set_AudioQueue (AudioQueue p ++ [s]) p, 1)
    end.
Proof.
  unfold AudioLoad, SDL_GetAudioStatus. intros ->. reflexivity.
Qed.

Lemma AudioLoad_not_stopped (p : player) (s : hx_audio_stream) :
  SDL_GetAudioStatus p <> SDL_AUDIO_STOPPED ->
  AudioLoad p s = AudioLoad (SDL_CloseAudio (AudioClear p)) s.
Proof.
  intros H. rewrite (AudioLoad_stopped (SDL_CloseAudio (AudioClear p))) by reflexivity.
  unfold AudioLoad, SDL_GetAudioStatus in *.
  destruct (device p); [contradiction| |]; reflexivity.
Qed.

(** The return value of [AudioLoad] is 1 or -1, never 0. *)
Lemma AudioLoad_result (p : player) (s : hx_audio_stream) :
  snd (AudioLoad p s) = match data s with Some _ => 1 | None => -1 end.
Proof. unfold AudioLoad. destruct (data s); reflexivity. Qed.

(** C7, as stated, fails twice: a stream whose buffer is empty is
    queued and reported as loaded, and a stream without data that
    arrives while the device is open leaves the queue emptied. *)
Lemma AudioLoad_empty_accepted_and_queue_cleared :
  AudioLoad initial empty_stream = (set_AudioQueue [empty_stream] initial, 1) /\
  snd (AudioLoad playing_tone null_stream) = -1 /\
  AudioQueue playing_tone = [tone] /\
  AudioQueue (fst (AudioLoad playing_tone null_stream)) = [] /\
  ~ (forall p s,
       data s = None \/ data s = Some [] ->
       snd (AudioLoad p s) = -1 /\ AudioQueue (fst (AudioLoad p s)) = AudioQueue p).
Proof.
  repeat split; try reflexivity.
  intros H. destruct (H initial empty_stream) as [Hr _]; [right; reflexivity|].
  discriminate Hr.
Qed.

(** C7 (amended): with the device stopped, [AudioLoad] of a stream
    whose [data] pointer is null logs an error, returns -1 and leaves
    both queues and the counters as they were; [AudioLoad] of a stream
    whose [data] pointer is not null, whatever its size, appends the
    stream at the tail of the pending queue and returns 1. *)
Theorem AudioLoad_spec (p : player) (s : hx_audio_stream)
    (Hdev : SDL_GetAudioStatus p = SDL_AUDIO_STOPPED) :
  (data s = None ->
     AudioLoad p s = (Log_push_back load_error p, -1) /\
     AudioQueue (fst (AudioLoad p s)) = AudioQueue p /\
     AudioSwapQueue (fst (AudioLoad p s)) = AudioSwapQueue p) /\
  (data s <> None ->
     AudioLoad p s = (set_AudioQueue (AudioQueue p ++ [s]) p, 1) /\
     AudioQueue (fst (AudioLoad p s)) = AudioQueue p ++ [s] /\
     Log (fst (AudioLoad p s)) = Log p).
Proof.
  rewrite (AudioLoad_stopped p s Hdev). split; intros H.
  - rewrite H. destruct p; cbn. repeat split; reflexivity.
  - destruct (data s); [|contradiction]. destruct p; cbn. repeat split; reflexivity.
Qed.

(** C7, witness: [tone] is queued, [null_stream] is not. *)
Lemma AudioLoad_spec_witness :
  AudioQueue (fst (AudioLoad initial tone)) = [tone] /\
  AudioQueue (fst (AudioLoad initial null_stream)) = [].
Proof.
  assert (Hdev : SDL_GetAudioStatus initial = SDL_AUDIO_STOPPED) by reflexivity.
  destruct (AudioLoad_spec initial tone Hdev) as [_ Hok].
  destruct (AudioLoad_spec initial null_stream Hdev) as [Hnull _].
  split.
  - destruct Hok as (_ & Hq & _); [discriminate|]. exact Hq.
  - destruct Hnull as (_ & Hq & _); [reflexivity|]. exact Hq.
Defined.

(** C10, as stated, fails on "the counters reset": the load clears
    with [AudioClear], which does not write [AudioPosition], and
    [AudioLoad] does not write it either.  [tone] is playing at offset
    4; after a load, of a stream that is rejected or of one that is
    queued, the offset is still 4. *)
Lemma AudioLoad_during_playback_keeps_offset :
  SDL_GetAudioStatus playing_tone = SDL_AUDIO_PLAYING /\
  AudioPosition playing_tone = 4 /\
  AudioLoad playing_tone null_stream =
    (Log_push_back load_error
       (mkPlayer 0 4 0 0 false (1 # 2) 44100 2 [] [] [] None SDL_AUDIO_STOPPED [tone]),
     -1) /\
  AudioPosition (fst (AudioLoad playing_tone null_stream)) = 4 /\
  AudioPosition (fst (AudioLoad playing_tone blip)) = 4 /\
  ~ (forall p s, SDL_GetAudioStatus p <> SDL_AUDIO_STOPPED ->
                 AudioPosition (fst (AudioLoad p s)) = 0).
Proof.
  repeat split.
  intros H. specialize (H playing_tone null_stream ltac:(discriminate)).
  discriminate H.
Qed.

(** C10 (amended): when the device is not stopped, [AudioLoad] first
    releases the streams of both queues, empties the queues, sets
    [AudioLength], [AudioPositionTotal] and [AudioQueueIndex] to zero
    and closes the device, and only then looks at the new stream: the
    session is gone whether the stream is queued or rejected.  The
    offset into the head stream, [AudioPosition], is not among the
    counters that are reset: it stays what it was. *)
Theorem AudioLoad_during_playback (p : player) (s : hx_audio_stream)
    (Hdev : SDL_GetAudioStatus p <> SDL_AUDIO_STOPPED) :
  AudioLoad p s = AudioLoad (SDL_CloseAudio (AudioClear p)) s /\
  let q := fst (AudioLoad p s) in
  AudioSwapQueue q = [] /\
  released q = released p ++ AudioQueue p ++ AudioSwapQueue p /\
  AudioLength q = 0 /\ AudioPositionTotal q = 0 /\ AudioQueueIndex q = 0 /\
  AudioPosition q = AudioPosition p /\
  SDL_GetAudioStatus q = SDL_AUDIO_STOPPED /\
  (data s = None -> AudioQueue q = [] /\ snd (AudioLoad p s) = -1) /\
  (data s <> None -> AudioQueue q = [s] /\ snd (AudioLoad p s) = 1).
Proof.
  split; [apply AudioLoad_not_stopped; exact Hdev|].
  rewrite (AudioLoad_not_stopped p s Hdev).
  rewrite AudioLoad_stopped by reflexivity.
  destruct (AudioClear_fields p) as (Hq & Hs & Hr & Hl & Ht & Hi).
  destruct (AudioClear_keeps p) as (Hp & _).
  remember (AudioClear p) as c eqn:Ec. clear Ec.
  destruct (data s) eqn:Ed; destruct c; cbn in *; subst;
    repeat split; try reflexivity; try congruence; intros; congruence.
Qed.

(** C10, witness: [null_stream] arrives while [tone] plays. *)
Lemma AudioLoad_during_playback_witness :
  AudioQueue (fst (AudioLoad playing_tone null_stream)) = [] /\
  released (fst (AudioLoad playing_tone null_stream)) = [tone] /\
  SDL_GetAudioStatus (fst (AudioLoad playing_tone null_stream)) = SDL_AUDIO_STOPPED.
Proof.
  assert (Hdev : SDL_GetAudioStatus playing_tone <> SDL_AUDIO_STOPPED) by discriminate.
  destruct (AudioLoad_during_playback playing_tone null_stream Hdev)
    as (_ & _ & Hr & _ & _ & _ & _ & Hst & Hnull & _).
  destruct Hnull as [Hq _]; [reflexivity|].
  repeat split; assumption.
Defined.

(** ** AudioCallback: the queue has been delivered *)

(** C4, as stated, fails: the callback mutes the device with
    [SDL_PauseAudio(1)] and leaves it open; [SDL_GetAudioStatus] then
    answers [SDL_AUDIO_PAUSED], not [SDL_AUDIO_STOPPED]. *)
Lemma AudioCallback_end_leaves_device_open :
  AudioCallback playing_tone 4 =
    Ok (tone_delivered, mkOut 4 (Some (repeat (Some x01) 4, 4, 64))) /\
  AudioRemaining tone_delivered = 0 /\
  AudioRepeat tone_delivered = false /\
  (exists q out, AudioCallback tone_delivered 4 = Ok (q, out) /\
                 AudioQueue q = [] /\ AudioSwapQueue q = [] /\
                 SDL_GetAudioStatus q = SDL_AUDIO_PAUSED) /\
  ~ (forall p len q out,
       AudioRemaining p = 0 -> AudioRepeat p = false ->
       AudioCallback p len = Ok (q, out) ->
       SDL_GetAudioStatus q = SDL_AUDIO_STOPPED).
Proof.
  repeat split.
  - eexists. eexists. split; [reflexivity|]. repeat split.
  - intros H.
    specialize (H tone_delivered 4 _ _ eq_refl eq_refl eq_refl). discriminate H.
Qed.

(** C4 (amended): when nothing remains and repeat is off, the callback
    leaves the buffer silent, releases the streams of both queues,
    empties them, sets the counters to zero, and pauses the device: the
    device stays open and its status becomes [SDL_AUDIO_PAUSED]. *)
Theorem AudioCallback_end_no_repeat (p : player) (len : Z)
    (Hrem : AudioRemaining p = 0)
    (Hrep : AudioRepeat p = false)
    (Hdev : SDL_GetAudioStatus p = SDL_AUDIO_PLAYING) :
  exists q,
    AudioCallback p len = Ok (q, silence len) /\
    q = SDL_PauseAudio true (AudioClear p) /\
    AudioQueue q = [] /\ AudioSwapQueue q = [] /\
    released q = released p ++ AudioQueue p ++ AudioSwapQueue p /\
    AudioLength q = 0 /\ AudioPositionTotal q = 0 /\ AudioQueueIndex q = 0 /\
    SDL_GetAudioStatus q = SDL_AUDIO_PAUSED.
Proof.
  exists (SDL_PauseAudio true (AudioClear p)).
  split.
  { unfold AudioCallback. rewrite (clamp_len_drained p len Hrem), Hrep. reflexivity. }
  split; [reflexivity|].
  destruct (AudioClear_fields p) as (Hq & Hs & Hr & Hl & Ht & Hi).
  destruct (AudioClear_keeps p) as (_ & _ & _ & _ & Hd).
  unfold SDL_GetAudioStatus in *. rewrite Hdev in Hd.
  remember (AudioClear p) as c eqn:Ec. clear Ec.
  destruct c; cbn in *; subst. repeat split; reflexivity.
Qed.

(** C4, witness: the invocation after [tone] has been delivered. *)
Lemma AudioCallback_end_no_repeat_witness :
  exists q,
    AudioCallback tone_delivered 4 = Ok (q, silence 4) /\
    released q = [tone] /\ SDL_GetAudioStatus q = SDL_AUDIO_PAUSED.
Proof.
  destruct (AudioCallback_end_no_repeat tone_delivered 4)
    as (q & Hcb & _ & _ & _ & Hr & _ & _ & _ & Hst);
    [reflexivity | reflexivity | reflexivity |].
  exists q. repeat split; assumption.
Defined.

(** ** AudioPlay *)

Section AudioPlayFacts.

Variable hx_audio_convert : hx_audio_stream -> hx_format -> convert_result.

(** When every visited stream converts, the loop replaces the visited
    streams, which are at the front of the queue, by their conversions,
    at its back and in the same order. *)
Lemma AudioPlay_loop_converted (visit outs : list hx_audio_stream) :
  Forall2 (converts hx_audio_convert) visit outs ->
  forall audio p rest,
    AudioQueue p = visit ++ rest ->
    AudioPlay_loop hx_audio_convert visit audio p =
      (set_AudioQueue (rest ++ outs)
         (set_AudioLength (length_after outs (AudioLength p)) p),
       Some (spec_after outs audio)).
Proof.
  induction 1 as [|s o visit outs Hso _ IH]; intros audio p rest Hq.
  - cbn in *. rewrite app_nil_r. subst rest. destruct p; reflexivity.
  - cbn [AudioPlay_loop]. unfold converts in Hso. rewrite Hso.
    rewrite (IH _ _ (rest ++ [o])).
    + destruct p; cbn in *. rewrite <- app_assoc. reflexivity.
    + destruct p; cbn in *. subst. cbn. rewrite <- app_assoc. reflexivity.
Qed.

(** When the conversion of one stream fails, the loop returns from
    [AudioPlay] at that stream. *)
Lemma AudioPlay_loop_fails (pre outs : list hx_audio_stream) :
  Forall2 (converts hx_audio_convert) pre outs ->
  forall bad post audio p,
    hx_audio_convert bad HX_FORMAT_PCM = UnsupportedCodec ->
    exists q,
      AudioPlay_loop hx_audio_convert (pre ++ bad :: post) audio p = (q, None) /\
      device q = device p /\
      Log q = Log p ++ [codec_error bad].
Proof.
  induction 1 as [|s o pre outs Hso _ IH]; intros bad post audio p Hbad.
  - cbn. rewrite Hbad. eexists. split; [reflexivity|].
    destruct p; cbn. split; reflexivity.
  - cbn [app AudioPlay_loop]. unfold converts in Hso. rewrite Hso.
    edestruct IH as (q & Hq & Hd & Hl); [exact Hbad|].
    exists q. split; [exact Hq|].
    rewrite Hd, Hl. destruct p; cbn. split; reflexivity.
Qed.

(** C3 (amended): when the conversion of one queued stream fails,
    [AudioPlay] logs the unsupported codec of that stream and returns
    at once: it does not open the device, whose status stays what it
    was, so no stream of the batch starts to play. *)
Theorem AudioPlay_conversion_failure (driver_ok : bool) (p : player)
    (pre outs post : list hx_audio_stream) (bad : hx_audio_stream)
    (Hdev : SDL_GetAudioStatus p <> SDL_AUDIO_PLAYING)
    (Hqueue : AudioQueue p = pre ++ bad :: post)
    (Hpre : Forall2 (converts hx_audio_convert) pre outs)
    (Hbad : hx_audio_convert bad HX_FORMAT_PCM = UnsupportedCodec) :
  SDL_GetAudioStatus (AudioPlay hx_audio_convert driver_ok p) = SDL_GetAudioStatus p /\
  Log (AudioPlay hx_audio_convert driver_ok p) = Log p ++ [codec_error bad].
Proof.
  unfold AudioPlay, SDL_GetAudioStatus in *.
  assert (E : SDL_AudioStatus_eqb (device p) SDL_AUDIO_PLAYING = false)
    by (destruct (device p); [reflexivity | contradiction | reflexivity]).
  rewrite E, Hqueue.
  destruct (AudioPlay_loop_fails pre outs Hpre bad post (mkSpec 0 0) p Hbad)
    as (q & Hq & Hd & Hl).
  rewrite Hq. split; assumption.
Qed.

End AudioPlayFacts.

(** C3, witness: [verse] does not convert. *)
Lemma AudioPlay_conversion_failure_witness :
  SDL_GetAudioStatus (AudioPlay hx_audio_convert_spec true batch) = SDL_AUDIO_STOPPED /\
  Log (AudioPlay hx_audio_convert_spec true batch) = [codec_error verse].
Proof.
  apply (AudioPlay_conversion_failure hx_audio_convert_spec true batch
           [opening] [opening] [closing] verse).
  - discriminate.
  - reflexivity.
  - repeat constructor.
  - reflexivity.
Defined.

(** C3, as stated, fails: after the failed conversion of [verse] the
    device is still closed, so [opening] and [closing] do not play, and
    [verse] has not left the queue. *)
Lemma AudioPlay_aborts_whole_batch :
  hx_audio_convert_spec verse HX_FORMAT_PCM = UnsupportedCodec /\
  SDL_GetAudioStatus (AudioPlay hx_audio_convert_spec true batch) = SDL_AUDIO_STOPPED /\
  AudioQueue (AudioPlay hx_audio_convert_spec true batch) = [verse; closing; opening] /\
  ~ (forall p pre bad post,
       SDL_GetAudioStatus p = SDL_AUDIO_STOPPED ->
       AudioQueue p = pre ++ bad :: post ->
       Forall (fun s => fmt (info s) = HX_FORMAT_PCM) (pre ++ post) ->
       hx_audio_convert_spec bad HX_FORMAT_PCM = UnsupportedCodec ->
       AudioQueue (AudioPlay hx_audio_convert_spec true p) = pre ++ post /\
       SDL_GetAudioStatus (AudioPlay hx_audio_convert_spec true p) = SDL_AUDIO_PLAYING).
Proof.
  repeat split; try reflexivity.
  intros H.
  destruct (H batch [opening] verse [closing]) as [_ Hplay]; try reflexivity.
  - repeat constructor.
  - discriminate Hplay.
Qed.

(** ** Conversion to the stream's own format *)

(** C9: converting a stream to the format it already has succeeds and
    returns the stream itself: same format, same size, and a buffer
    that is byte for byte the one that went in. *)
Theorem hx_audio_convert_same_format (s : hx_audio_stream) :
  exists o,
    hx_audio_convert_spec s (fmt (info s)) = Converted o /\
    o = s /\ data o = data s /\ size o = size s /\ info o = info s.
Proof.
  exists s. unfold hx_audio_convert_spec.
  assert (E : hx_format_eqb (fmt (info s)) (fmt (info s)) = true).
  { destruct (fmt (info s)); cbn; [reflexivity | reflexivity | apply Z.eqb_refl]. }
  rewrite E. repeat split; reflexivity.
Qed.

(** In [AudioPlay] this is the case of a stream that is PCM already:
    with the device closed, a queue of PCM streams is the same queue
    after [AudioPlay]. *)
Lemma AudioPlay_pcm_queue (driver_ok : bool) (p : player) :
  SDL_GetAudioStatus p <> SDL_AUDIO_PLAYING ->
  Forall (fun s => fmt (info s) = HX_FORMAT_PCM) (AudioQueue p) ->
  AudioQueue (AudioPlay hx_audio_convert_spec driver_ok p) = AudioQueue p.
Proof.
  intros Hdev Hpcm. unfold AudioPlay, SDL_GetAudioStatus in *.
  assert (E : SDL_AudioStatus_eqb (device p) SDL_AUDIO_PLAYING = false)
    by (destruct (device p); [reflexivity | contradiction | reflexivity]).
  rewrite E.
  assert (H2 : Forall2 (converts hx_audio_convert_spec) (AudioQueue p) (AudioQueue p)).
  { induction Hpcm as [|s l Hs _ IH]; constructor; [|exact IH].
    unfold converts, hx_audio_convert_spec. rewrite Hs. reflexivity. }
  rewrite (AudioPlay_loop_converted hx_audio_convert_spec _ _ H2 _ p [])
    by (rewrite app_nil_r; reflexivity).
  cbn [app].
  destruct (0 <? _); [|destruct p; reflexivity].
  unfold SDL_OpenAudio, SDL_PauseAudio.
  destruct p, device0, driver_ok; cbn; reflexivity.
Qed.

(** ** QueueAudioEntry: an event that links to a program *)

Lemma loaded_nil (p : player) : loaded [] p = p.
Proof. destruct p; unfold loaded; cbn. rewrite !app_nil_r. reflexivity. Qed.

Lemma loaded_cons (s : hx_audio_stream) (l : list hx_audio_stream) (p : player) :
  SDL_GetAudioStatus p = SDL_AUDIO_STOPPED ->
  loaded (s :: l) p = loaded l (fst (AudioLoad p s)) /\
  SDL_GetAudioStatus (fst (AudioLoad p s)) = SDL_AUDIO_STOPPED.
Proof.
  intros Hdev. rewrite (AudioLoad_stopped p s Hdev).
  unfold loaded, SDL_GetAudioStatus in *. cbn [filter].
  change (has_data s) with (match data s with Some _ => true | None => false end).
  destruct (data s); destruct p; cbn in *; rewrite <- ?app_assoc; split;
    solve [reflexivity | assumption].
Qed.

Lemma or_assign_AudioLoad (success : bool) (p : player) (s : hx_audio_stream) :
  or_assign success (snd (AudioLoad p s)) = true.
Proof.
  rewrite AudioLoad_result. destruct success, (data s); reflexivity.
Qed.

Lemma settle_stopped (p : player) : SDL_GetAudioStatus (settle p) = SDL_AUDIO_STOPPED.
Proof. unfold settle, SDL_GetAudioStatus. destruct (device p) eqn:E; auto. Qed.

Lemma AudioLoad_settle (p : player) (s : hx_audio_stream) :
  AudioLoad p s = AudioLoad (settle p) s.
Proof.
  unfold settle. destruct (SDL_GetAudioStatus p) eqn:E; [reflexivity| |];
    apply AudioLoad_not_stopped; rewrite E; discriminate.
Qed.

(** The loop with the device stopped. *)
Lemma resolved_cons (hx : hx_t) (l : Z) (ls : list Z) :
  resolved hx (l :: ls) =
    match resolve_link hx l with Some s => [s] | None => [] end ++ resolved hx ls.
Proof. reflexivity. Qed.

(** The loop with the device stopped. *)
Lemma QueueAudioEntry_links_stopped (hx : hx_t) (ls : list Z) :
  forallb (link_typed hx) ls = true ->
  forall success p,
    SDL_GetAudioStatus p = SDL_AUDIO_STOPPED ->
    QueueAudioEntry_links hx ls success p =
      Ok (loaded (resolved hx ls) p, success || negb (is_nil (resolved hx ls))).
Proof.
  induction ls as [|l ls IH]; intros Hty success p Hdev.
  - cbn. rewrite loaded_nil, orb_false_r. reflexivity.
  - cbn [forallb] in Hty. apply andb_true_iff in Hty as [Hl Hls].
    cbn [QueueAudioEntry_links]. rewrite resolved_cons.
    pose proof (eq_refl (resolve_link hx l)) as Hrl. unfold resolve_link at 2 in Hrl.
    unfold link_typed in Hl.
    destruct (hx_context_find_entry hx l) as [e|];
      [|rewrite Hrl; apply IH; assumption].
    unfold as_wave_resource.
    destruct (e_data e) as [ | w | | | ]; try discriminate Hl. cbn [bind].
    destruct (hx_context_find_entry hx (default_cuuid w)) as [f|];
      [|rewrite Hrl; apply IH; assumption].
    unfold as_wave_file.
    destruct (e_data f) as [ | | | o | ]; try discriminate Hl. cbn [bind].
    rewrite Hrl. cbn [app].
    destruct (loaded_cons (audio_stream o) (resolved hx ls) p Hdev) as [Hc Hd].
    pose proof (or_assign_AudioLoad success p (audio_stream o)) as Hor.
    destruct (AudioLoad p (audio_stream o)) as [p1 r] eqn:E. cbn [fst snd] in *.
    rewrite (IH Hls _ p1 Hd), Hor, Hc.
    cbn. rewrite orb_true_r. reflexivity.
Qed.

(** The loop, whatever the device does when it starts. *)
Lemma QueueAudioEntry_links_any (hx : hx_t) (ls : list Z) :
  forallb (link_typed hx) ls = true ->
  forall success p,
    QueueAudioEntry_links hx ls success p =
      Ok (if is_nil (resolved hx ls) then p else loaded (resolved hx ls) (settle p),
          success || negb (is_nil (resolved hx ls))).
Proof.
  induction ls as [|l ls IH]; intros Hty success p.
  - cbn. rewrite orb_false_r. reflexivity.
  - cbn [forallb] in Hty. apply andb_true_iff in Hty as [Hl Hls].
    pose proof (QueueAudioEntry_links_stopped hx (l :: ls)) as Hst.
    cbn [forallb] in Hst. rewrite Hl, Hls in Hst.
    specialize (Hst eq_refl success (settle p) (settle_stopped p)).
    cbn [QueueAudioEntry_links] in *. rewrite resolved_cons in *.
    pose proof (eq_refl (resolve_link hx l)) as Hrl. unfold resolve_link at 2 in Hrl.
    unfold link_typed in Hl.
    destruct (hx_context_find_entry hx l) as [e|];
      [|rewrite Hrl; apply IH; assumption].
    unfold as_wave_resource in *.
    destruct (e_data e) as [ | w | | | ]; try discriminate Hl. cbn [bind] in *.
    destruct (hx_context_find_entry hx (default_cuuid w)) as [f|];
      [|rewrite Hrl; apply IH; assumption].
    unfold as_wave_file in *.
    destruct (e_data f) as [ | | | o | ]; try discriminate Hl. cbn [bind] in *.
    rewrite Hrl in *. cbn [app is_nil] in *.
    rewrite AudioLoad_settle. exact Hst.
Qed.

Lemma settle_Log (p : player) : Log (settle p) = Log p.
Proof. unfold settle, SDL_GetAudioStatus. destruct p, device0; reflexivity. Qed.

(** A link that does not resolve contributes nothing; the streams of
    the links around it keep their order. *)
Lemma resolved_skip (hx : hx_t) (before after : list Z) (l : Z) :
  resolve_link hx l = None ->
  resolved hx (before ++ l :: after) = resolved hx before ++ resolved hx after.
Proof.
  intros H. unfold resolved. rewrite flat_map_app. cbn [flat_map].
  rewrite H. reflexivity.
Qed.

(** C8, as stated, fails on "logged": the link 999 names no entry, the
    loop passes over it, and the log is as empty after the call as it
    was before.  The rest of the scenario is as the claim has it. *)
Lemma QueueAudioEntry_logs_no_skipped_link :
  hx_context_find_entry scenario_B 999 = None /\
  exists q,
    QueueAudioEntry hx_audio_convert_spec scenario_B true event_E initial = Ok q /\
    Log initial = [] /\ Log q = [] /\
    AudioQueue q = [wave_500; wave_700] /\
    AudioLength q = 1200 /\
    SDL_GetAudioStatus q = SDL_AUDIO_PLAYING /\
    ~ (forall hx e ev lnk prog l p r,
         e_data e = event_data ev ->
         hx_context_find_entry hx (link ev) = Some lnk ->
         e_data lnk = program_data prog ->
         In l (links prog) ->
         hx_context_find_entry hx l = None ->
         QueueAudioEntry hx_audio_convert_spec hx true e p = Ok r ->
         Log r <> Log p).
Proof.
  split; [reflexivity|]. eexists. split; [vm_compute; reflexivity|].
  repeat split; try reflexivity.
  intros H.
  refine (H scenario_B event_E (mkEvent "E" 200)
            (mkEntry 200 HX_CLASS_PROGRAM_RESOURCE_DATA
               (program_data (mkProgram [301; 999; 302])))
            (mkProgram [301; 999; 302]) 999 initial _
            eq_refl eq_refl eq_refl _ eq_refl _ _).
  - right. left. reflexivity.
  - vm_compute. reflexivity.
  - reflexivity.
Qed.

(** C8 (amended): when the link of an event names a program, the loop
    goes through the links of the program in stored order; a link that
    names no entry, or whose default link names none, is passed over
    and nothing is written to the log for it; every other link hands
    its stream to [AudioLoad], so the streams that have data join the
    queue in the order of the links, and each one without data costs
    one load error.  [success] is true exactly when at least one link
    resolved, and then [AudioPlay] is called. *)
Theorem QueueAudioEntry_program
    (hx_audio_convert : hx_audio_stream -> hx_format -> convert_result)
    (hx : hx_t) (driver_ok : bool) (e lnk : hx_entry)
    (ev : hx_event_resource_data) (prog : hx_program_resource_data) (p : player)
    (Hclass : i_class e = HX_CLASS_EVENT_RESOURCE_DATA)
    (Hev : e_data e = event_data ev)
    (Hlnk : hx_context_find_entry hx (link ev) = Some lnk)
    (Hprog : i_class lnk = HX_CLASS_PROGRAM_RESOURCE_DATA)
    (Hdata : e_data lnk = program_data prog)
    (Hty : forallb (link_typed hx) (links prog) = true) :
  let streams := resolved hx (links prog) in
  let q := if is_nil streams then p else loaded streams (settle p) in
  QueueAudioEntry_links hx (links prog) false p = Ok (q, negb (is_nil streams)) /\
  AudioQueue q =
    (if is_nil streams then AudioQueue p
     else AudioQueue (settle p) ++ filter has_data streams) /\
  Log q = Log p ++ map (fun _ => load_error) (filter (fun s => negb (has_data s)) streams) /\
  QueueAudioEntry hx_audio_convert hx driver_ok e p =
    Ok (if is_nil streams then p
        else AudioPlay hx_audio_convert driver_ok (set_PlayingEvent (Some e) q)).
Proof.
  intros streams q.
  pose proof (QueueAudioEntry_links_any hx (links prog) Hty false p) as Hloop.
  cbn [orb] in Hloop. fold streams in Hloop. fold q in Hloop.
  split; [exact Hloop|]. split; [|split].
  - subst q. destruct (is_nil streams); [reflexivity|].
    unfold loaded. destruct (settle p); reflexivity.
  - subst q. destruct streams as [|s streams'] eqn:Es; cbn [is_nil].
    + cbn. rewrite app_nil_r. reflexivity.
    + rewrite <- (settle_Log p). unfold loaded. destruct (settle p); reflexivity.
  - unfold QueueAudioEntry. rewrite Hclass. cbn [hx_class_eqb].
    unfold as_event. rewrite Hev. cbn [bind]. rewrite Hlnk, Hprog. cbn [hx_class_eqb].
    unfold as_program. rewrite Hdata. cbn [bind].
    destruct (0 <? num_links prog) eqn:En.
    + rewrite Hloop. cbn [bind]. destruct (is_nil streams); reflexivity.
    + unfold num_links in En. subst streams.
      destruct (links prog); [reflexivity|]. cbn in En. discriminate En.
Qed.

(** C8, witness: scenario B. *)
Lemma QueueAudioEntry_program_witness :
  QueueAudioEntry_links scenario_B [301; 999; 302] false initial =
    Ok (set_AudioQueue [wave_500; wave_700] initial, true) /\
  QueueAudioEntry hx_audio_convert_spec scenario_B true event_E initial =
    Ok (AudioPlay hx_audio_convert_spec true
          (set_PlayingEvent (Some event_E) (set_AudioQueue [wave_500; wave_700] initial))).
Proof.
  pose proof (QueueAudioEntry_program hx_audio_convert_spec scenario_B true event_E
                (mkEntry 200 HX_CLASS_PROGRAM_RESOURCE_DATA
                   (program_data (mkProgram [301; 999; 302])))
                (mkEvent "E" 200) (mkProgram [301; 999; 302]) initial
                eq_refl eq_refl eq_refl eq_refl eq_refl eq_refl) as H.
  cbv zeta in H. destruct H as (Hloop & _ & _ & Hcall).
  vm_compute in Hloop, Hcall. vm_compute. split; [exact Hloop | exact Hcall].
Defined.

(** ** The counters across a session *)

Lemma clamp_len_bounds (p : player) (len : Z) :
  0 <= AudioPositionTotal p <= AudioLength p ->
  AudioLength p <= INT_MAX ->
  0 <= clamp_len p len <= AudioLength p - AudioPositionTotal p.
Proof.
  unfold INT_MAX. intros Ht Hm. unfold clamp_len, AudioRemaining.
  rewrite (to_u32_small (_ - _)) by (unfold two32; lia).
  pose proof (to_u32_range len) as R.
  destruct (to_u32 len >? AudioLength p - AudioPositionTotal p) eqn:E.
  - rewrite to_s32_small by (unfold INT_MAX; lia). lia.
  - rewrite Z.gtb_ltb in E. apply Z.ltb_ge in E.
    rewrite to_s32_small by (unfold INT_MAX; lia). lia.
Qed.

Lemma sizes_ok_app (a b : list hx_audio_stream) :
  sizes_ok a -> sizes_ok b -> sizes_ok (a ++ b).
Proof. unfold sizes_ok. intros. apply Forall_app. split; assumption. Qed.

Lemma Inv_initial : Inv initial.
Proof.
  unfold Inv, sizes_ok, INT_MAX. cbn. repeat split; try lia; try constructor.
Qed.

Lemma Inv_AudioClear (p : player) : Inv p -> Inv (AudioClear p).
Proof.
  intros _. unfold Inv, head_bound, sizes_ok, INT_MAX. cbn.
  repeat split; try lia; constructor.
Qed.

Lemma Inv_SDL_CloseAudio (p : player) : Inv p -> Inv (SDL_CloseAudio p).
Proof.
  intros (Ht & Hm & Hq & Hw & _). unfold Inv, SDL_GetAudioStatus. cbn.
  repeat split; try assumption; try lia. intros C. contradiction C. reflexivity.
Qed.

Lemma Inv_AudioLoad (p : player) (s : hx_audio_stream) :
  0 <= size s -> Inv p -> Inv (fst (AudioLoad p s)).
Proof.
  intros Hs. rewrite AudioLoad_settle.
  assert (Hi : Inv p -> Inv (settle p)).
  { unfold settle. destruct (SDL_GetAudioStatus p); [auto| |];
      intros H; apply Inv_SDL_CloseAudio, Inv_AudioClear; exact H. }
  intros H. apply Hi in H. pose proof (settle_stopped p) as Hd.
  rewrite (AudioLoad_stopped _ s Hd).
  destruct H as (Ht & Hm & Hq & Hw & _).
  unfold Inv, SDL_GetAudioStatus in *.
  destruct (data s); cbn; rewrite Hd; repeat split; try tauto; try lia.
  apply sizes_ok_app; [assumption|]. constructor; [exact Hs | constructor].
Qed.

Lemma Inv_AudioCallback (p q : player) (len : Z) (out : out_buffer) :
  SDL_GetAudioStatus p = SDL_AUDIO_PLAYING ->
  AudioCallback p len = Ok (q, out) ->
  Inv p -> Inv q.
Proof.
  intros Hdev Hcb (Ht & Hm & Hq & Hw & Hh).
  pose proof (clamp_len_bounds p len Ht Hm) as Hn.
  assert (Hb : head_bound p) by (apply Hh; rewrite Hdev; discriminate).
  unfold AudioCallback in Hcb.
  destruct (clamp_len p len =? 0) eqn:E0.
  - destruct (AudioRepeat p).
    + injection Hcb as <- _. unfold Inv, head_bound. cbn.
      repeat split; try lia; try assumption.
      intros _. destruct (AudioSwapQueue p) as [|front rest]; [exact I|].
      inversion Hw; subst. lia.
    + injection Hcb as <- _.
      unfold Inv, head_bound, SDL_PauseAudio, sizes_ok, INT_MAX.
      destruct (device (AudioClear p)); cbn; repeat split; try lia; constructor.
  - apply Z.eqb_neq in E0. unfold head_bound in Hb.
    destruct (AudioQueue p) as [|front rest] eqn:Eq; [discriminate Hcb|].
    destruct (data front) as [d|]; [|discriminate Hcb].
    destruct Hb as (Hp & Hf). inversion Hq as [|? ? Hfront Hrest]; subst.
    cbn [AudioPosition set_AudioPosition set_AudioPositionTotal] in Hcb.
    rewrite (to_s32_small (AudioPosition p + _)) in Hcb by lia.
    rewrite (to_s32_small (AudioPositionTotal p + _)) in Hcb by lia.
    rewrite to_u32_small in Hcb by (unfold two32, INT_MAX in *; lia).
    destruct (AudioPosition p + clamp_len p len >=? size front) eqn:Epop.
    + injection Hcb as <- _. unfold Inv, head_bound. cbn.
      repeat split; try lia; try assumption.
      * apply sizes_ok_app; [assumption|]. constructor; [exact Hfront | constructor].
      * intros _. destruct rest as [|next rest]; [exact I|].
        inversion Hrest; subst. lia.
    + injection Hcb as <- _. rewrite Z.geb_leb in Epop. apply Z.leb_gt in Epop.
      unfold Inv, head_bound. cbn. rewrite Eq.
      repeat split; try lia; try assumption.
Qed.

Lemma total_size_nonneg (l : list hx_audio_stream) : sizes_ok l -> 0 <= total_size l.
Proof.
  induction 1 as [|s l Hs _ IH]; [cbn; lia|].
  change (0 <= size s + total_size l). lia.
Qed.

Lemma length_after_exact (outs : list hx_audio_stream) :
  sizes_ok outs ->
  forall len, 0 <= len -> len + total_size outs <= INT_MAX ->
              length_after outs len = len + total_size outs.
Proof.
  induction 1 as [|o outs Ho Houts IH]; intros len H0 Hm; [cbn in *; lia|].
  pose proof (total_size_nonneg outs Houts) as Hn.
  change (total_size (o :: outs)) with (size o + total_size outs) in *.
  change (length_after (o :: outs) len)
    with (length_after outs (to_s32 (len + size o))).
  rewrite to_s32_small by lia. rewrite IH by lia. lia.
Qed.

(** What the loop of [AudioPlay] changes, whether it ends or returns. *)
Lemma AudioPlay_loop_effect
    (hx_audio_convert : hx_audio_stream -> hx_format -> convert_result)
    (visit : list hx_audio_stream) :
  forall audio p, exists q r,
    AudioPlay_loop hx_audio_convert visit audio p = (q, r) /\
    AudioLength q = length_after (converted_prefix hx_audio_convert visit) (AudioLength p) /\
    AudioPosition q = AudioPosition p /\
    AudioPositionTotal q = AudioPositionTotal p /\
    AudioSwapQueue q = AudioSwapQueue p /\
    device q = device p /\
    (forall x, In x (AudioQueue q) ->
               In x (AudioQueue p) \/ In x (converted_prefix hx_audio_convert visit)).
Proof.
  induction visit as [|s visit IH]; intros audio p.
  - exists p, (Some audio). cbn. repeat split; auto.
  - cbn [AudioPlay_loop converted_prefix].
    destruct (hx_audio_convert s HX_FORMAT_PCM) as [o|].
    + match goal with |- context [AudioPlay_loop _ visit ?a ?p1] =>
        destruct (IH a p1) as (q & r & Hrun & Hl & Hp & Ht & Hw & Hd & Hin) end.
      exists q, r. split; [exact Hrun|].
      cbn in Hl, Hp, Ht, Hw, Hd, Hin.
      repeat split; try assumption.
      intros x Hx. apply Hin in Hx. destruct Hx as [Hx|Hx]; [|right; right; exact Hx].
      apply in_app_or in Hx. destruct Hx as [Hx|[Hx|[]]].
      * left. destruct (AudioQueue p); [destruct Hx | right; exact Hx].
      * right. left. exact Hx.
    + eexists. exists None. split; [reflexivity|]. cbn. repeat split; auto.
Qed.

Lemma Inv_AudioPlay
    (hx_audio_convert : hx_audio_stream -> hx_format -> convert_result)
    (driver_ok : bool) (p : player) :
  SDL_GetAudioStatus p = SDL_AUDIO_STOPPED ->
  play_fits hx_audio_convert p ->
  Inv p -> Inv (AudioPlay hx_audio_convert driver_ok p).
Proof.
  unfold SDL_GetAudioStatus. intros Hdev (Hsz & Hfit) (Ht & Hm & Hq & Hw & _).
  unfold AudioPlay, SDL_GetAudioStatus. rewrite Hdev. cbn [SDL_AudioStatus_eqb].
  destruct (AudioPlay_loop_effect hx_audio_convert (AudioQueue p) (mkSpec 0 0) p)
    as (q & r & Hrun & Hl & Hp & Htq & Hwq & Hd & Hin).
  rewrite Hrun.
  rewrite length_after_exact in Hl by (try assumption; lia).
  pose proof (total_size_nonneg _ Hsz) as Hn.
  assert (Hqq : sizes_ok (AudioQueue q)).
  { apply Forall_forall. intros x Hx. apply Hin in Hx.
    unfold sizes_ok in Hq, Hsz. rewrite Forall_forall in Hq, Hsz.
    destruct Hx as [Hx|Hx]; auto. }
  assert (Hbase : forall v, Inv (SDL_CloseAudio v) -> device v = SDL_AUDIO_STOPPED -> Inv v).
  { intros v (A & B & C & D & _) Hv. unfold Inv, SDL_GetAudioStatus. cbn in A, B, C, D.
    repeat split; try assumption; try lia. intros Hc. contradiction. }
  destruct r as [audio|].
  - unfold SDL_OpenAudio, SDL_PauseAudio. cbn [device set_AudioPosition set_AudioChannelCount
      set_AudioSampleRate AudioQueue].
    rewrite Hd, Hdev.
    assert (Hgen : forall dv,
      Inv (set_device dv (set_AudioPosition 0
             (set_AudioChannelCount (channels audio)
                (set_AudioSampleRate (freq audio) q))))).
    { intros dv. unfold Inv, head_bound, SDL_GetAudioStatus. cbn.
      rewrite Hl, Htq, Hwq. repeat split; try assumption; try lia.
      intros _. destruct (AudioQueue q) as [|front rest]; [exact I|].
      inversion Hqq; subst. lia. }
    assert (Hstop : Inv (set_AudioPosition 0
             (set_AudioChannelCount (channels audio)
                (set_AudioSampleRate (freq audio) q)))).
    { apply Hbase; [|cbn; congruence]. apply (Hgen SDL_AUDIO_STOPPED). }
    destruct (0 <? _); [|exact Hstop].
    destruct driver_ok; cbn; [|exact Hstop].
    apply (Hgen SDL_AUDIO_PLAYING).
  - apply Hbase; [|congruence].
    unfold Inv, head_bound, SDL_GetAudioStatus. cbn.
    rewrite Hl, Htq, Hwq. repeat split; try assumption; try lia.
    intros Hc. contradiction Hc. reflexivity.
Qed.

Lemma Inv_step
    (hx_audio_convert : hx_audio_stream -> hx_format -> convert_result)
    (p q : player) :
  step hx_audio_convert p q -> Inv p -> Inv q.
Proof.
  intros Hstep Hinv. destruct Hstep as [p s Hs|p ok Hdev Hfit|p len q out Hdev Hcb|p b|p|p b].
  - apply Inv_AudioLoad; assumption.
  - apply Inv_AudioPlay; assumption.
  - eapply Inv_AudioCallback; eassumption.
  - unfold SDL_PauseAudio. destruct (device p) eqn:Ed; [exact Hinv| |];
      destruct Hinv as (Ht & Hm & Hq & Hw & Hh);
      (split; [exact Ht|]; split; [exact Hm|]; split; [exact Hq|]; split; [exact Hw|]);
      intros _; apply Hh; unfold SDL_GetAudioStatus; rewrite Ed; discriminate.
  - apply Inv_SDL_CloseAudio. apply Inv_AudioClear in Hinv.
    destruct Hinv as (Ht & Hm & Hq & Hw & Hh).
    split; [exact Ht|]; split; [exact Hm|]; split; [exact Hq|]; split; [exact Hw|].
    exact Hh.
  - destruct Hinv as (Ht & Hm & Hq & Hw & Hh).
    split; [exact Ht|]; split; [exact Hm|]; split; [exact Hq|]; split; [exact Hw|].
    exact Hh.
Qed.

Lemma reachable_Inv
    (hx_audio_convert : hx_audio_stream -> hx_format -> convert_result)
    (p : player) :
  reachable hx_audio_convert p -> Inv p.
Proof.
  induction 1 as [|p q _ IH Hstep]; [exact Inv_initial|].
  exact (Inv_step hx_audio_convert p q Hstep IH).
Qed.

Lemma stream_of_size (id : Z) (f : hx_format) (d : list byte) :
  0 <= size (stream_of id f d).
Proof. cbn. lia. Qed.

(** [playing_tone] is where the program is after it has loaded [tone],
    started to play and run the callback once for four bytes. *)
Lemma reachable_playing_tone : reachable hx_audio_convert_spec playing_tone.
Proof.
  apply (reachable_step _ (AudioPlay hx_audio_convert_spec true (fst (AudioLoad initial tone)))).
  - apply reachable_step with (p := fst (AudioLoad initial tone)).
    + apply reachable_step with (p := initial); [constructor|].
      apply step_AudioLoad. apply stream_of_size.
    + apply step_AudioPlay; [reflexivity|]. split.
      * cbn. constructor; [apply stream_of_size | constructor].
      * cbn. unfold INT_MAX. lia.
  - apply step_AudioCallback with (len := 4) (out := mkOut 4 (Some (repeat (Some x01) 4, 4, 64)));
      reflexivity.
Qed.

(** C1, as stated, fails on the offset: [AudioLoad] in mid-stream
    clears the queue and queues the new stream, and [AudioPosition] is
    still the offset into the stream that was playing.  Here it is 4,
    in a head stream of 2 bytes. *)
Lemma AudioLoad_leaves_offset_past_head :
  reachable hx_audio_convert_spec (fst (AudioLoad playing_tone blip)) /\
  AudioQueue (fst (AudioLoad playing_tone blip)) = [blip] /\
  size blip = 2 /\
  AudioPosition (fst (AudioLoad playing_tone blip)) = 4 /\
  ~ AudioPosition (fst (AudioLoad playing_tone blip)) <= size blip /\
  ~ (forall p, reachable hx_audio_convert_spec p ->
               forall front rest, AudioQueue p = front :: rest ->
                                  AudioPosition p <= size front).
Proof.
  assert (Hreach : reachable hx_audio_convert_spec (fst (AudioLoad playing_tone blip))).
  { apply reachable_step with (p := playing_tone); [exact reachable_playing_tone|].
    apply step_AudioLoad. apply stream_of_size. }
  split; [exact Hreach|].
  repeat split; try reflexivity.
  - cbn. lia.
  - intros H. specialize (H _ Hreach blip [] eq_refl). cbn in H. lia.
Qed.

(** C1 (amended): in every state that loads, plays, callbacks, pauses
    and stops lead to, as long as the lengths that [AudioPlay] adds up
    fit the [int] [AudioLength], [AudioPositionTotal] is at most
    [AudioLength]; and while the device is open, [AudioPosition] is at
    most the size of the head stream.  (After a load the device is
    closed and the offset may be stale; [AudioPlay] resets it before
    it opens the device.) *)
Theorem counters_bounded
    (hx_audio_convert : hx_audio_stream -> hx_format -> convert_result)
    (p : player)
    (Hreach : reachable hx_audio_convert p) :
  0 <= AudioPositionTotal p <= AudioLength p /\
  (SDL_GetAudioStatus p <> SDL_AUDIO_STOPPED ->
   forall front rest, AudioQueue p = front :: rest ->
                      0 <= AudioPosition p <= size front).
Proof.
  destruct (reachable_Inv hx_audio_convert p Hreach) as (Ht & _ & _ & _ & Hh).
  split; [exact Ht|].
  intros Hdev front rest Hq. specialize (Hh Hdev). unfold head_bound in Hh.
  rewrite Hq in Hh. lia.
Qed.

(** C1, witness: [playing_tone]. *)
Lemma counters_bounded_witness :
  0 <= AudioPositionTotal playing_tone <= AudioLength playing_tone /\
  0 <= AudioPosition playing_tone <= size tone.
Proof.
  destruct (counters_bounded hx_audio_convert_spec playing_tone reachable_playing_tone)
    as [Ht Hh].
  split; [exact Ht|].
  apply (Hh ltac:(discriminate) tone []). reflexivity.
Defined.

(** ** Repeat *)

(** The callback has no test for an empty queue: when something
    remains and a length was requested, it takes [front()]. *)
Lemma AudioCallback_empty_queue (p : player) (len : Z) :
  AudioQueue p = [] -> clamp_len p len <> 0 ->
  AudioCallback p len = Fault FrontOfEmptyDeque.
Proof.
  intros Hq Hn. unfold AudioCallback. apply Z.eqb_neq in Hn. rewrite Hn, Hq.
  reflexivity.
Qed.

(** C5 at the failing input: the callback is asked for 4 bytes at a
    time.  The second invocation reads 4 bytes at offset 4 of the
    6-byte stream and counts all 4 as delivered, so after four
    invocations the 14 bytes count as delivered while [second_part] is
    still pending at offset 6.  The fifth invocation swaps, resets the
    counters and is silent, as the claim says, but the swap makes
    [first_part] the whole pending queue: the order
    [first_part; second_part] is not restored, and the second cycle
    ends in a fault after two buffers instead of repeating the four
    buffers of the first. *)
Theorem repeat_swap_loses_pending_stream :
  AudioQueue looping = [first_part; second_part] /\
  AudioLength looping = 14 /\
  AudioChannelCount looping = 2 /\
  exists q1 outs1 q2,
    callbacks 4 4 looping = Ok (q1, outs1) /\
    mixed (nth 1 outs1 (silence 0)) =
      Some ([Some x0a; Some x0a; None; None], 4, 64) /\
    AudioRemaining q1 = 0 /\ AudioRepeat q1 = true /\
    AudioQueue q1 = [second_part] /\ AudioSwapQueue q1 = [first_part] /\
    AudioCallback q1 4 = Ok (q2, silence 4) /\
    AudioPosition q2 = 0 /\ AudioPositionTotal q2 = 0 /\
    AudioQueue q2 = [first_part] /\ AudioSwapQueue q2 = [second_part] /\
    AudioQueue q2 <> AudioQueue looping /\
    callbacks 4 4 q2 = Fault FrontOfEmptyDeque.
Proof.
  split; [reflexivity|]. split; [reflexivity|]. split; [reflexivity|].
  eexists. eexists. eexists.
  split; [vm_compute; reflexivity|].
  split; [reflexivity|]. split; [reflexivity|]. split; [reflexivity|].
  split; [reflexivity|]. split; [reflexivity|].
  split; [vm_compute; reflexivity|].
  split; [reflexivity|]. split; [reflexivity|]. split; [reflexivity|].
  split; [reflexivity|]. split; [discriminate|]. vm_compute. reflexivity.
Qed.

(** C2 at the failing input: in the second cycle of [looping] the
    pending queue is empty after two buffers while 6 of the 14 bytes
    still count as remaining; the device is playing, and the next
    invocation of the callback, instead of leaving silence, takes
    [front()] of the empty queue. *)
Theorem AudioCallback_faults_on_empty_queue :
  exists q outs,
    callbacks 7 4 looping = Ok (q, outs) /\
    SDL_GetAudioStatus q = SDL_AUDIO_PLAYING /\
    AudioQueue q = [] /\
    AudioRemaining q = 6 /\
    clamp_len q 4 = 4 /\
    AudioCallback q 4 = Fault FrontOfEmptyDeque /\
    callbacks 8 4 looping = Fault FrontOfEmptyDeque.
Proof.
  eexists. eexists.
  split; [vm_compute; reflexivity|].
  split; [reflexivity|]. split; [reflexivity|]. split; [reflexivity|].
  split; [reflexivity|].
  split; [apply AudioCallback_empty_queue; [reflexivity | discriminate]|].
  vm_compute. reflexivity.
Qed.

(** The same fault without any read past a buffer: the first
    [AudioPlay] has added the 8 bytes of [tone] to [AudioLength] before
    the device failed to open, the second adds the 16 bytes of the two
    queued copies, and the 16 bytes are delivered in four buffers. *)
Lemma AudioCallback_faults_after_failed_open :
  AudioQueue replayed = [tone; tone] /\
  AudioLength replayed = 24 /\
  SDL_GetAudioStatus replayed = SDL_AUDIO_PLAYING /\
  (exists q outs,
     callbacks 4 4 replayed = Ok (q, outs) /\
     AudioQueue q = [] /\ AudioRemaining q = 8) /\
  callbacks 5 4 replayed = Fault FrontOfEmptyDeque.
Proof.
  split; [reflexivity|]. split; [reflexivity|]. split; [reflexivity|]. split.
  - eexists. eexists. split; [vm_compute; reflexivity|]. split; reflexivity.
  - vm_compute. reflexivity.
Qed.

(** ** Repeat, when the callback length divides the streams *)

Lemma callbacks_S (n : nat) (len : Z) (p : player) :
  callbacks (S n) len p =
    (r <- AudioCallback p len ;;
     let '(q, out) := r in
     r' <- callbacks n len q ;;
     let '(q', outs) := r' in
     Ok (q', out :: outs)).
Proof. reflexivity. Qed.

Lemma callbacks_app (n m : nat) (len : Z) (p q r : player)
    (outs outs' : list out_buffer) :
  callbacks n len p = Ok (q, outs) ->
  callbacks m len q = Ok (r, outs') ->
  callbacks (n + m) len p = Ok (r, outs ++ outs').
Proof.
  revert p q outs. induction n as [|n IH]; intros p q outs Hn Hm.
  - cbn in Hn. injection Hn as <- <-. exact Hm.
  - cbn [callbacks Nat.add] in *.
    destruct (AudioCallback p len) as [[p1 o]|]; [|discriminate Hn]. cbn [bind] in *.
    destruct (callbacks n len p1) as [[p2 os]|] eqn:E; [|discriminate Hn].
    cbn [bind] in Hn. injection Hn as <- <-.
    rewrite (IH p1 p2 os E Hm). reflexivity.
Qed.

Section RepeatCycle.

Variable len : Z.
Hypothesis len_pos : 0 < len.
Hypothesis len_int : len <= INT_MAX.

(** One invocation in the course of the head stream. *)
Lemma AudioCallback_chunk (p : player) (s : hx_audio_stream) (d : list byte)
    (rest played : list hx_audio_stream) (pos total idx : Z) :
  data s = Some d ->
  0 <= pos <= total ->
  total + len <= AudioLength p ->
  AudioLength p <= INT_MAX ->
  AudioCallback (session p pos total idx (s :: rest) played) len =
    Ok (if pos + len >=? size s
        then session p 0 (total + len) (to_s32 (idx + 1)) rest (played ++ [s])
        else session p (pos + len) (total + len) idx (s :: rest) played,
        chunk (session p pos total idx (s :: rest) played) len d pos).
Proof.
  intros Hd Hpos Htot Hmax.
  assert (Hc : clamp_len (session p pos total idx (s :: rest) played) len = len).
  { rewrite clamp_len_min; cbn; lia. }
  unfold AudioCallback. rewrite Hc.
  destruct (len =? 0) eqn:E; [apply Z.eqb_eq in E; lia|].
  cbn [AudioQueue session set_AudioPosition set_AudioPositionTotal
       set_AudioQueueIndex set_AudioQueue set_AudioSwapQueue].
  rewrite Hd.
  cbn [AudioPosition AudioPositionTotal session set_AudioPosition set_AudioPositionTotal
       set_AudioQueueIndex set_AudioQueue set_AudioSwapQueue].
  rewrite (to_s32_small (pos + len)), (to_s32_small (total + len)) by lia.
  rewrite !to_u32_small by (unfold two32, INT_MAX in *; lia).
  unfold chunk.
  destruct (pos + len >=? size s); destruct p; reflexivity.
Qed.

Lemma chunk_session (p : player) (pos total idx : Z)
    (pending played : list hx_audio_stream) (d : list byte) (off : Z) :
  chunk (session p pos total idx pending played) len d off = chunk p len d off.
Proof. reflexivity. Qed.

(** The invocations that take the head stream from the offset
    [j * len] to its end, [S m] buffers further. *)
Lemma callbacks_head (m : nat) :
  forall (j : nat) (p : player) (s : hx_audio_stream) (d : list byte)
         (rest played : list hx_audio_stream) (total idx : Z),
    data s = Some d ->
    size s = Z.of_nat (j + S m) * len ->
    Z.of_nat j * len <= total ->
    total + Z.of_nat (S m) * len <= AudioLength p ->
    AudioLength p <= INT_MAX ->
    callbacks (S m) len (session p (Z.of_nat j * len) total idx (s :: rest) played) =
      Ok (session p 0 (total + Z.of_nat (S m) * len) (to_s32 (idx + 1)) rest
            (played ++ [s]),
          map (fun i => chunk p len d (Z.of_nat i * len)) (seq j (S m))).
Proof.
  induction m as [|m IH]; intros j p s d rest played total idx Hd Hsz Hj Htot Hmax.
  - cbn [callbacks]. rewrite (AudioCallback_chunk p s d) by (try assumption; nia).
    replace (Z.of_nat j * len + len >=? size s) with true
      by (symmetry; rewrite Z.geb_leb; apply Z.leb_le; nia).
    cbn [bind seq map]. rewrite chunk_session.
    replace (total + Z.of_nat 1 * len) with (total + len) by lia. reflexivity.
  - rewrite callbacks_S. rewrite (AudioCallback_chunk p s d) by (try assumption; nia).
    replace (Z.of_nat j * len + len >=? size s) with false
      by (symmetry; rewrite Z.geb_leb; apply Z.leb_gt; nia).
    cbn [bind]. rewrite chunk_session.
    replace (Z.of_nat j * len + len) with (Z.of_nat (S j) * len) by lia.
    rewrite (IH (S j) p s d rest played (total + len) idx) by (try assumption; nia).
    cbn [seq map].
    replace (total + len + Z.of_nat (S m) * len) with (total + Z.of_nat (S (S m)) * len)
      by lia.
    reflexivity.
Qed.

Lemma aligned_size (s : hx_audio_stream) :
  aligned len s -> 0 < size s /\ (0 < Z.to_nat (size s / len))%nat.
Proof.
  intros (d & k & _ & _ & Hk). rewrite Hk, Z.div_mul by lia. split; nia.
Qed.

(** The invocations that deliver a whole pending queue. *)
Lemma callbacks_queue (pending : list hx_audio_stream) :
  Forall (aligned len) pending ->
  forall (p : player) (played : list hx_audio_stream) (total idx : Z),
    0 <= total ->
    total + total_size pending <= AudioLength p ->
    AudioLength p <= INT_MAX ->
    callbacks (buffers len pending) len (session p 0 total idx pending played) =
      Ok (session p 0 (total + total_size pending)
            (index_after (List.length pending) idx) [] (played ++ pending),
          flat_map (stream_buffers p len) pending).
Proof.
  induction 1 as [|s pending Hs Hall IH]; intros p played total idx H0 Htot Hmax.
  - cbn. rewrite Z.add_0_r, app_nil_r. reflexivity.
  - assert (Hrest : 0 <= total_size pending).
    { apply total_size_nonneg. apply Forall_forall. intros x Hx.
      rewrite Forall_forall in Hall. destruct (aligned_size x (Hall x Hx)). lia. }
    change (total_size (s :: pending)) with (size s + total_size pending) in *.
    destruct Hs as (d & k & Hd & _ & Hk).
    change (buffers len (s :: pending))
      with (Z.to_nat (size s / len) + buffers len pending)%nat.
    cbn [flat_map]. unfold stream_buffers at 1. rewrite Hd.
    rewrite Hk, Z.div_mul, Nat2Z.id by lia.
    apply callbacks_app with
      (q := session p 0 (total + Z.of_nat (S k) * len) (to_s32 (idx + 1)) pending
              (played ++ [s])).
    + apply (callbacks_head k 0 p s d pending played total idx); try assumption; nia.
    + rewrite IH by (try assumption; nia).
      rewrite <- app_assoc. cbn [app List.length].
      unfold index_after. rewrite Nat.iter_succ_r.
      rewrite Z.add_assoc. reflexivity.
Qed.

(** With repeat on, the invocations that deliver the queue and the
    silent one that swaps bring the player back to where the cycle
    started: every later cycle is the same cycle. *)
Lemma repeat_cycle (p : player) :
  AudioRepeat p = true ->
  AudioPosition p = 0 -> AudioPositionTotal p = 0 -> AudioQueueIndex p = 0 ->
  AudioSwapQueue p = [] ->
  Forall (aligned len) (AudioQueue p) ->
  AudioLength p = total_size (AudioQueue p) ->
  AudioLength p <= INT_MAX ->
  callbacks (buffers len (AudioQueue p) + 1) len p =
    Ok (p, flat_map (stream_buffers p len) (AudioQueue p) ++ [silence len]).
Proof.
  intros Hrep Hpos Htot Hidx Hswap Hall Hlen Hmax.
  assert (Hp : p = session p 0 0 0 (AudioQueue p) []).
  { destruct p; cbn in *; subst; reflexivity. }
  pose proof (callbacks_queue (AudioQueue p) Hall p [] 0 0
                ltac:(lia) ltac:(lia) Hmax) as Hdeliver.
  rewrite <- Hp in Hdeliver.
  eapply callbacks_app.
  - exact Hdeliver.
  - cbn [callbacks app]. unfold AudioCallback.
    rewrite clamp_len_drained
      by (unfold AudioRemaining; cbn; rewrite Hlen, Z.sub_diag; reflexivity).
    cbn. rewrite Hrep. cbn.
    f_equal. f_equal. destruct p; cbn in *; subst; reflexivity.
Qed.

(** The second cycle delivers what the first delivered. *)
Lemma repeat_two_cycles (p : player) :
  AudioRepeat p = true ->
  AudioPosition p = 0 -> AudioPositionTotal p = 0 -> AudioQueueIndex p = 0 ->
  AudioSwapQueue p = [] ->
  Forall (aligned len) (AudioQueue p) ->
  AudioLength p = total_size (AudioQueue p) ->
  AudioLength p <= INT_MAX ->
  exists outs,
    callbacks (buffers len (AudioQueue p) + 1) len p = Ok (p, outs) /\
    callbacks ((buffers len (AudioQueue p) + 1) + (buffers len (AudioQueue p) + 1)) len p =
      Ok (p, outs ++ outs).
Proof.
  intros. eexists. split; [apply repeat_cycle; assumption|].
  eapply callbacks_app; apply repeat_cycle; assumption.
Qed.

End RepeatCycle.

(** * Further properties *)

(** ** What one invocation of the callback does to the buffer *)

Lemma clamp01_bounds (v : Q) : (0 <= clamp01 v <= 1)%Q.
Proof.
  unfold clamp01.
  destruct (Qlt_le_dec v 0) as [Hneg|Hpos]; [split; [apply Qle_refl | discriminate]|].
  destruct (Qlt_le_dec 1 v) as [Hbig|Hsmall]; [split; [discriminate | apply Qle_refl]|].
  split; assumption.
Qed.

Lemma mix_volume_range (p : player) :
  0 <= mix_volume p <= SDL_MIX_MAXVOLUME.
Proof.
  unfold mix_volume, SDL_MIX_MAXVOLUME.
  destruct (clamp01_bounds (AudioMixVolume p)) as [H0 H1].
  split.
  - change 0 with (Qfloor (inject_Z 0)). apply Qfloor_resp_le.
    change (inject_Z 0) with (0 * inject_Z 128)%Q.
    apply Qmult_le_compat_r; [exact H0 | discriminate].
  - change 128 with (Qfloor (inject_Z 128)) at 2. apply Qfloor_resp_le.
    setoid_replace (inject_Z 128) with (1 * inject_Z 128)%Q at 2 by ring.
    apply Qmult_le_compat_r; [exact H1 | discriminate].
Qed.

(** X1: for every number that [AudioMixVolume] holds, inside the
    range of the slider or outside it, the volume that the callback
    hands to [SDL_MixAudio] is between 0 and [SDL_MIX_MAXVOLUME].  (A
    [float] that is not a number is outside the statement.) *)
Theorem mix_volume_bounds (p : player) :
  0 <= mix_volume p <= SDL_MIX_MAXVOLUME.
Proof. exact (mix_volume_range p). Qed.

Lemma read_bytes_length (d : list byte) (off n : Z) :
  List.length (read_bytes d off n) = Z.to_nat n.
Proof. unfold read_bytes. rewrite length_map, length_seq. reflexivity. Qed.

Lemma clamp_len_request (p : player) (len : Z) :
  0 <= len <= INT_MAX -> 0 <= clamp_len p len <= len.
Proof.
  unfold INT_MAX. intros Hl. unfold clamp_len.
  pose proof (to_u32_range (AudioLength p - AudioPositionTotal p)) as Hr.
  fold (AudioRemaining p) in Hr.
  rewrite (to_u32_small len) by (unfold two32; lia).
  destruct (len >? AudioRemaining p) eqn:E.
  - apply Z.gtb_lt in E. rewrite to_s32_small by (unfold INT_MAX; lia). lia.
  - rewrite to_s32_small by (unfold INT_MAX; lia). lia.
Qed.

(** X2: in whatever state the counters are, an invocation that asks
    for [len] bytes zeroes [len] bytes and mixes at most [len]: the
    callback never writes past the buffer of the device. *)
Theorem AudioCallback_output_fits (p q : player) (len : Z) (out : out_buffer)
    (Hlen : 0 <= len <= INT_MAX)
    (Hcb : AudioCallback p len = Ok (q, out)) :
  zeroed out = len /\
  match mixed out with
  | None => True
  | Some (src, n, volume) =>
      0 < n <= len /\ Z.of_nat (List.length src) = n /\
      0 <= volume <= SDL_MIX_MAXVOLUME
  end.
Proof.
  pose proof (clamp_len_request p len Hlen) as Hc.
  unfold AudioCallback in Hcb.
  destruct (clamp_len p len =? 0) eqn:E0.
  - destruct (AudioRepeat p); injection Hcb as _ <-; split; [reflexivity | exact I | reflexivity | exact I].
  - apply Z.eqb_neq in E0.
    destruct (AudioQueue p) as [|front rest]; [discriminate Hcb|].
    destruct (data front) as [d|]; [|discriminate Hcb].
    assert (Hu : to_u32 (clamp_len p len) = clamp_len p len)
      by (apply to_u32_small; unfold two32, INT_MAX in *; lia).
    assert (Hout : out = mkOut len (Some (read_bytes d (AudioPosition p) (clamp_len p len),
                                          clamp_len p len, mix_volume p))).
    { rewrite Hu in Hcb. destruct (_ >=? _); injection Hcb as _ <-; reflexivity. }
    rewrite Hout. cbn. split; [reflexivity|].
    rewrite read_bytes_length, Z2Nat.id by lia.
    split; [lia|]. split; [reflexivity | apply mix_volume_range].
Qed.

(** X2, witness: four bytes of [tone]. *)
Lemma AudioCallback_output_fits_witness :
  exists q out,
    AudioCallback playing_tone 4 = Ok (q, out) /\
    zeroed out = 4.
Proof.
  exists tone_delivered, (mkOut 4 (Some (repeat (Some x01) 4, 4, 64))).
  split; [reflexivity|].
  apply (AudioCallback_output_fits playing_tone tone_delivered 4
           (mkOut 4 (Some (repeat (Some x01) 4, 4, 64))));
    [unfold INT_MAX; lia | reflexivity].
Defined.

(** X3: an invocation that mixes moves at most the head stream from
    the pending to the played queue: the played streams followed by
    the pending ones are the same list before and after.  It releases
    nothing, logs nothing and leaves the device as it is. *)
Theorem AudioCallback_keeps_streams (p q : player) (len : Z) (out : out_buffer)
    (Hmix : clamp_len p len <> 0)
    (Hcb : AudioCallback p len = Ok (q, out)) :
  AudioSwapQueue q ++ AudioQueue q = AudioSwapQueue p ++ AudioQueue p /\
  released q = released p /\
  Log q = Log p /\
  SDL_GetAudioStatus q = SDL_GetAudioStatus p /\
  AudioLength q = AudioLength p /\
  AudioRepeat q = AudioRepeat p /\
  PlayingEvent q = PlayingEvent p.
Proof.
  unfold AudioCallback in Hcb. apply Z.eqb_neq in Hmix. rewrite Hmix in Hcb.
  destruct (AudioQueue p) as [|front rest] eqn:Eq; [discriminate Hcb|].
  destruct (data front) as [d|]; [|discriminate Hcb].
  destruct (_ >=? _); injection Hcb as <- _; cbn; rewrite ?Eq, <- ?app_assoc;
    repeat split; reflexivity.
Qed.

(** X3, witness: the second half of [tone]. *)
Lemma AudioCallback_keeps_streams_witness :
  AudioSwapQueue tone_delivered ++ AudioQueue tone_delivered =
    AudioSwapQueue playing_tone ++ AudioQueue playing_tone /\
  released tone_delivered = released playing_tone.
Proof.
  destruct (AudioCallback_keeps_streams playing_tone tone_delivered 4
              (mkOut 4 (Some (repeat (Some x01) 4, 4, 64))))
    as (Hq & Hr & _); [discriminate | reflexivity |].
  split; assumption.
Defined.

(** ** Bytes of the streams *)

Lemma nth_error_prefix {A : Type} (l : list A) :
  forall n, (n <= List.length l)%nat ->
            map (nth_error l) (seq 0 n) = map Some (firstn n l).
Proof.
  induction l as [|x l IH]; intros n Hn.
  - cbn in Hn. replace n with 0%nat by lia. reflexivity.
  - destruct n as [|n]; [reflexivity|].
    cbn [seq map firstn nth_error]. rewrite <- seq_shift, map_map.
    cbn [nth_error]. rewrite IH by (cbn in Hn; lia). reflexivity.
Qed.

(** A read that stays inside the buffer returns bytes of the buffer. *)
Lemma read_bytes_inside (d : list byte) (off n : Z) :
  0 <= off -> 0 <= n -> off + n <= Z.of_nat (List.length d) ->
  read_bytes d off n =
    map Some (firstn (Z.to_nat n) (skipn (Z.to_nat off) d)).
Proof.
  intros Hoff Hn Hin. unfold read_bytes.
  rewrite <- nth_error_prefix by (rewrite length_skipn; lia).
  apply map_ext_in. intros k _. unfold byte_at.
  destruct (off + Z.of_nat k <? 0) eqn:E; [apply Z.ltb_lt in E; lia|].
  rewrite nth_error_skipn. f_equal. lia.
Qed.

Lemma firstn_add {A : Type} (a b : nat) (l : list A) :
  firstn (a + b) l = firstn a l ++ firstn b (skipn a l).
Proof.
  revert l. induction a as [|a IH]; intros l; [reflexivity|].
  destruct l as [|x l]; [cbn; rewrite firstn_nil; reflexivity|].
  cbn. rewrite IH. reflexivity.
Qed.

Lemma total_size_app (a b : list hx_audio_stream) :
  total_size (a ++ b) = total_size a + total_size b.
Proof.
  induction a as [|s a IH]; [reflexivity|].
  change (total_size ((s :: a) ++ b)) with (size s + total_size (a ++ b)).
  change (total_size (s :: a)) with (size s + total_size a). lia.
Qed.

Lemma wf_stream_size (s : hx_audio_stream) :
  wf_stream s -> size s = Z.of_nat (List.length (stream_bytes s)) /\ 0 <= size s.
Proof.
  intros (d & Hd & Hs). unfold stream_bytes. rewrite Hd. split; [exact Hs | lia].
Qed.

Lemma stream_bytes_length (l : list hx_audio_stream) :
  Forall wf_stream l ->
  Z.of_nat (List.length (flat_map stream_bytes l)) = total_size l /\ 0 <= total_size l.
Proof.
  induction 1 as [|s l Hs _ IH]; [cbn; lia|].
  destruct (wf_stream_size s Hs) as [Hsz H0].
  change (total_size (s :: l)) with (size s + total_size l).
  cbn [flat_map]. rewrite length_app. lia.
Qed.

(** Under [books_ok], what remains is the number of pending bytes. *)
Lemma books_ok_remaining (p : player) :
  books_ok p ->
  0 <= AudioPosition p <= AudioPositionTotal p /\
  AudioPositionTotal p <= AudioLength p /\
  Z.of_nat (List.length (pending_bytes p)) = AudioLength p - AudioPositionTotal p.
Proof.
  intros (Hwf & Hl & Hm & Ht & Hh).
  apply Forall_app in Hwf as [Hws Hwq].
  destruct (stream_bytes_length _ Hws) as [_ Hs0].
  destruct (stream_bytes_length _ Hwq) as [Hql Hq0].
  unfold pending_bytes. rewrite length_skipn.
  destruct (AudioQueue p) as [|front rest] eqn:Eq.
  - rewrite Hh in *. cbn in *. lia.
  - inversion Hwq as [|? ? Hf Hr]; subst.
    destruct (wf_stream_size front Hf) as [_ Hf0].
    destruct (stream_bytes_length _ Hr) as [_ Hr0].
    change (total_size (front :: rest)) with (size front + total_size rest) in *.
    lia.
Qed.

(** ** Mixing inside the head stream *)

(** One invocation that mixes, with the counters in agreement with
    the queues and the length within the head stream. *)
Lemma mix_within_head (p : player) (len : Z)
    (Hbooks : books_ok p)
    (Hlen : valid_len len)
    (Hfits : fits p len)
    (Hrem : AudioPositionTotal p < AudioLength p) :
  exists q out,
    AudioCallback p len = Ok (q, out) /\
    mixed_bytes out =
      map Some (firstn (Z.to_nat (Z.min len (AudioLength p - AudioPositionTotal p)))
                       (pending_bytes p)) /\
    pending_bytes q =
      skipn (Z.to_nat (Z.min len (AudioLength p - AudioPositionTotal p)))
            (pending_bytes p) /\
    books_ok q /\
    AudioRepeat q = AudioRepeat p /\
    (AudioQueue q = AudioQueue p \/ AudioQueue q = tl (AudioQueue p)) /\
    AudioSwapQueue q ++ AudioQueue q = AudioSwapQueue p ++ AudioQueue p.
Proof.
  destruct (books_ok_remaining p Hbooks) as (Hp & Htl & _).
  destruct Hbooks as (Hwf & Hl & Hm & Ht & Hh).
  unfold valid_len in Hlen. unfold fits in Hfits.
  pose proof (clamp_len_min p len ltac:(lia) ltac:(lia) Hm) as Hclamp.
  set (n := Z.min len (AudioLength p - AudioPositionTotal p)) in *.
  assert (Hn : 0 < n) by (unfold n; lia).
  destruct (AudioQueue p) as [|front rest] eqn:Eq.
  { change (total_size []) with 0 in Hl. lia. }
  pose proof Hwf as Hwf'. apply Forall_app in Hwf' as [Hws Hwq].
  inversion Hwq as [|? ? Hfront Hrest]; subst.
  destruct Hfront as (d & Hd & Hsz).
  destruct (stream_bytes_length _ Hws) as [_ Hs0].
  destruct (stream_bytes_length _ Hrest) as [_ Hr0].
  change (total_size (front :: rest)) with (size front + total_size rest) in *.
  assert (Hpend : pending_bytes p =
                  skipn (Z.to_nat (AudioPosition p)) d ++ flat_map stream_bytes rest).
  { unfold pending_bytes. rewrite Eq. cbn [flat_map]. unfold stream_bytes at 1.
    rewrite Hd, skipn_app.
    replace (Z.to_nat (AudioPosition p) - List.length d)%nat with 0%nat by lia.
    reflexivity. }
  assert (Hread : read_bytes d (AudioPosition p) n =
                  map Some (firstn (Z.to_nat n) (pending_bytes p))).
  { rewrite read_bytes_inside by lia. rewrite Hpend, firstn_app, length_skipn.
    replace (Z.to_nat n - (List.length d - Z.to_nat (AudioPosition p)))%nat
      with 0%nat by lia.
    cbn [firstn]. rewrite app_nil_r. reflexivity. }
  unfold AudioCallback. rewrite Hclamp.
  destruct (n =? 0) eqn:E0; [apply Z.eqb_eq in E0; lia|].
  rewrite Eq, Hd.
  cbn [AudioPosition AudioPositionTotal set_AudioPosition set_AudioPositionTotal].
  rewrite (to_s32_small (AudioPosition p + n)), (to_s32_small (AudioPositionTotal p + n))
    by lia.
  rewrite !to_u32_small by (unfold two32, INT_MAX in *; lia).
  destruct (AudioPosition p + n >=? size front) eqn:Epop.
  - rewrite Z.geb_leb in Epop. apply Z.leb_le in Epop.
    eexists. eexists. split; [reflexivity|].
    split; [exact Hread|]. split; [|split; [|split; [|split]]].
    + unfold pending_bytes at 1. cbn. rewrite Hpend, skipn_app, length_skipn.
      rewrite skipn_skipn, skipn_all2 by lia.
      replace (Z.to_nat n - (List.length d - Z.to_nat (AudioPosition p)))%nat
        with 0%nat by lia.
      reflexivity.
    + unfold books_ok. cbn -[total_size]. rewrite <- app_assoc. cbn [app].
      rewrite total_size_app.
      change (total_size [front]) with (size front + 0).
      split; [exact Hwf|]. split; [lia|]. split; [exact Hm|]. split; [lia|].
      destruct rest; [reflexivity | left; reflexivity].
    + reflexivity.
    + right. reflexivity.
    + cbn. rewrite <- app_assoc. reflexivity.
  - rewrite Z.geb_leb in Epop. apply Z.leb_gt in Epop.
    eexists. eexists. split; [reflexivity|].
    split; [exact Hread|]. split; [|split; [|split; [|split]]].
    + unfold pending_bytes. cbn. rewrite ?Eq, skipn_skipn. f_equal. lia.
    + unfold books_ok. cbn -[total_size]. rewrite ?Eq.
      change (total_size (front :: rest)) with (size front + total_size rest).
      split; [exact Hwf|]. split; [lia|]. split; [exact Hm|]. split; [lia|].
      right. lia.
    + reflexivity.
    + left. cbn. exact Eq.
    + cbn. rewrite Eq. reflexivity.
Qed.

(** X4: when the counters agree with the queues and the length to mix
    is within what is left of the head stream, the callback mixes
    exactly the next pending bytes, reads no byte outside the stream,
    and leaves counters that agree with the queues again. *)
Theorem AudioCallback_within_head (p : player) (len : Z)
    (Hbooks : books_ok p)
    (Hlen : valid_len len)
    (Hfits : fits p len)
    (Hrem : AudioPositionTotal p < AudioLength p) :
  exists q out,
    AudioCallback p len = Ok (q, out) /\
    mixed_bytes out =
      map Some (firstn (Z.to_nat (Z.min len (AudioLength p - AudioPositionTotal p)))
                       (pending_bytes p)) /\
    pending_bytes q =
      skipn (Z.to_nat (Z.min len (AudioLength p - AudioPositionTotal p)))
            (pending_bytes p) /\
    books_ok q.
Proof.
  destruct (mix_within_head p len Hbooks Hlen Hfits Hrem)
    as (q & out & Hcb & Hmixed & Hpend & Hok & _).
  exists q, out.
  split; [exact Hcb|]. split; [exact Hmixed|]. split; [exact Hpend | exact Hok].
Qed.

(** The invocation that finds everything delivered. *)
Lemma callback_at_end (p : player) (len : Z) :
  books_ok p ->
  AudioPositionTotal p = AudioLength p ->
  pending_bytes p = [] /\
  exists q,
    AudioCallback p len = Ok (q, silence len) /\
    books_ok q /\
    AudioRepeat q = AudioRepeat p /\
    (if AudioRepeat p
     then AudioQueue q = AudioSwapQueue p /\ AudioSwapQueue q = AudioQueue p
     else AudioQueue q = [] /\ AudioSwapQueue q = []).
Proof.
  intros Hbooks Hend.
  destruct (books_ok_remaining p Hbooks) as (Hp & _ & Hlenp).
  destruct Hbooks as (Hwf & Hl & Hm & Ht & Hh).
  apply Forall_app in Hwf as [Hws Hwq].
  destruct (stream_bytes_length _ Hws) as [_ Hs0].
  destruct (stream_bytes_length _ Hwq) as [_ Hq0].
  assert (Hzero : total_size (AudioQueue p) = 0 /\ AudioPosition p = 0).
  { destruct (AudioQueue p) as [|front rest] eqn:Eq.
    - split; [reflexivity | exact Hh].
    - inversion Hwq as [|? ? Hf Hr]; subst.
      destruct (wf_stream_size front Hf) as [_ Hf0].
      destruct (stream_bytes_length _ Hr) as [_ Hr0].
      change (total_size (front :: rest)) with (size front + total_size rest) in *.
      lia. }
  destruct Hzero as [Hq Hpos].
  split.
  { apply length_zero_iff_nil. lia. }
  assert (Hclamp : clamp_len p len = 0).
  { apply clamp_len_drained. unfold AudioRemaining. rewrite Hend, Z.sub_diag. reflexivity. }
  unfold AudioCallback. rewrite Hclamp. cbn [Z.eqb].
  destruct (AudioRepeat p) eqn:Er.
  - eexists. split; [reflexivity|]. split; [|split; [exact Er|split; reflexivity]].
    unfold books_ok. cbn -[total_size]. rewrite Hq.
    split; [apply Forall_app; split; assumption|].
    split; [lia|]. split; [exact Hm|]. split; [reflexivity|].
    destruct (AudioSwapQueue p); [reflexivity | left; reflexivity].
  - eexists. split; [reflexivity|].
    unfold SDL_PauseAudio.
    destruct (device (AudioClear p)); (split; [|split; [exact Er|split; reflexivity]]);
      unfold books_ok; cbn -[total_size]; change (total_size []) with 0;
      (split; [constructor|]); unfold INT_MAX; repeat split; lia.
Qed.

(** ** The last stream of a queue *)

(** One invocation with at most one stream pending and repeat off. *)
Lemma last_stream_step (p : player) (len : Z) :
  books_ok p -> AudioRepeat p = false ->
  (List.length (AudioQueue p) <= 1)%nat ->
  valid_len len ->
  exists q out,
    AudioCallback p len = Ok (q, out) /\
    books_ok q /\ AudioRepeat q = false /\
    (List.length (AudioQueue q) <= 1)%nat /\
    mixed_bytes out = map Some (firstn (Z.to_nat len) (pending_bytes p)) /\
    pending_bytes q = skipn (Z.to_nat len) (pending_bytes p).
Proof.
  intros Hbooks Hrep Hone Hlen.
  destruct (books_ok_remaining p Hbooks) as (Hp & Htl & Hpl).
  destruct (Z.eq_dec (AudioPositionTotal p) (AudioLength p)) as [Hend|Hmore].
  - destruct (callback_at_end p len Hbooks Hend) as (Hnil & q & Hcb & Hok & Hr & Hq).
    rewrite Hrep in Hr, Hq. destruct Hq as [Hq Hs].
    exists q, (silence len). split; [exact Hcb|]. split; [exact Hok|].
    split; [exact Hr|]. split; [rewrite Hq; cbn; lia|].
    rewrite Hnil, firstn_nil, skipn_nil. split; [reflexivity|].
    unfold pending_bytes. rewrite Hq. cbn. apply skipn_nil.
  - assert (Hfits : fits p len).
    { unfold fits. destruct Hbooks as (Hwf & Hl & _ & Ht & _).
      destruct (AudioQueue p) as [|front [|second rest]]; [exact I| |cbn in Hone; lia].
      change (total_size [front]) with (size front + 0) in Hl. lia. }
    destruct (mix_within_head p len Hbooks Hlen Hfits ltac:(lia))
      as (q & out & Hcb & Hmixed & Hpend & Hok & Hr & Hqueue & _).
    exists q, out. split; [exact Hcb|]. split; [exact Hok|].
    split; [congruence|]. split.
    { destruct Hqueue as [-> | ->]; [exact Hone|].
      destruct (AudioQueue p); cbn in *; lia. }
    unfold valid_len in Hlen.
    destruct (Z.le_gt_cases len (AudioLength p - AudioPositionTotal p)) as [Hle|Hgt].
    + rewrite Z.min_l in Hmixed, Hpend by lia. split; assumption.
    + rewrite Z.min_r in Hmixed, Hpend by lia.
      rewrite firstn_all2 in Hmixed by lia. rewrite skipn_all2 in Hpend by lia.
      rewrite firstn_all2, skipn_all2 by lia. split; assumption.
Qed.

Lemma sum_lens_nonneg (lens : list Z) : Forall valid_len lens -> 0 <= sum_lens lens.
Proof.
  induction 1 as [|len lens Hl _ IH]; [cbn; lia|].
  unfold valid_len in Hl.
  change (sum_lens (len :: lens)) with (len + sum_lens lens). lia.
Qed.

Lemma last_stream_run (lens : list Z) :
  forall (p : player)
         (Hbooks : books_ok p)
         (Hrep : AudioRepeat p = false)
         (Hone : (List.length (AudioQueue p) <= 1)%nat)
         (Hlens : Forall valid_len lens),
  exists q outs,
    callbacks_seq lens p = Ok (q, outs) /\
    delivered outs = map Some (firstn (Z.to_nat (sum_lens lens)) (pending_bytes p)) /\
    pending_bytes q = skipn (Z.to_nat (sum_lens lens)) (pending_bytes p) /\
    books_ok q.
Proof.
  induction lens as [|len lens IH]; intros p Hbooks Hrep Hone Hlens.
  - exists p, []. split; [reflexivity|]. split; [reflexivity|].
    split; [reflexivity | exact Hbooks].
  - inversion Hlens as [|? ? Hlen Hrest]; subst.
    destruct (last_stream_step p len Hbooks Hrep Hone Hlen)
      as (q & out & Hcb & Hok & Hr & Hq1 & Hmixed & Hpend).
    destruct (IH q Hok Hr Hq1 Hrest) as (q' & outs & Hrun & Hdel & Hpend' & Hok').
    exists q', (out :: outs).
    pose proof (sum_lens_nonneg lens Hrest) as Hsum. unfold valid_len in Hlen.
    change (sum_lens (len :: lens)) with (len + sum_lens lens).
    rewrite Z2Nat.inj_add by lia.
    split; [cbn [callbacks_seq]; rewrite Hcb; cbn [bind]; rewrite Hrun; reflexivity|].
    split; [|split; [|exact Hok']].
    + change (delivered (out :: outs)) with (mixed_bytes out ++ delivered outs).
      rewrite Hmixed, Hdel, Hpend, firstn_add, map_app. reflexivity.
    + rewrite Hpend', Hpend, skipn_skipn. f_equal. lia.
Qed.

(** X5: when the counters agree with the queues ([books_ok]), repeat
    is off and at most one stream is still pending, the device
    receives exactly the bytes that are left of that stream, in order
    and whatever lengths it asks for: after lengths that add up to [n]
    it has received the next [n] pending bytes, or all of them when
    fewer are left, and nothing but silence after that.  (Without the
    agreement, as after a read past an earlier stream, the last stream
    is cut short.) *)
Theorem last_stream_delivery (lens : list Z) :
  forall (p : player)
         (Hbooks : books_ok p)
         (Hrep : AudioRepeat p = false)
         (Hone : (List.length (AudioQueue p) <= 1)%nat)
         (Hlens : Forall valid_len lens),
  exists q outs,
    callbacks_seq lens p = Ok (q, outs) /\
    delivered outs = map Some (firstn (Z.to_nat (sum_lens lens)) (pending_bytes p)) /\
    pending_bytes q = skipn (Z.to_nat (sum_lens lens)) (pending_bytes p) /\
    books_ok q.
Proof. apply last_stream_run; assumption. Qed.

(** ** A queue of one stream *)

(** One invocation with one stream in all, pending or played. *)
Lemma one_stream_step (p : player) (len : Z) :
  books_ok p ->
  (List.length (AudioSwapQueue p ++ AudioQueue p) <= 1)%nat ->
  valid_len len ->
  exists q out bytes,
    AudioCallback p len = Ok (q, out) /\
    books_ok q /\
    (List.length (AudioSwapQueue q ++ AudioQueue q) <= 1)%nat /\
    mixed_bytes out = map Some bytes.
Proof.
  intros Hbooks Hone Hlen.
  destruct (books_ok_remaining p Hbooks) as (Hp & Htl & Hpl).
  destruct (Z.eq_dec (AudioPositionTotal p) (AudioLength p)) as [Hend|Hmore].
  - destruct (callback_at_end p len Hbooks Hend) as (_ & q & Hcb & Hok & _ & Hq).
    exists q, (silence len), []. split; [exact Hcb|]. split; [exact Hok|].
    split; [|reflexivity].
    destruct (AudioRepeat p); destruct Hq as [-> ->]; [|cbn; lia].
    rewrite length_app in *. lia.
  - assert (Hfits : fits p len).
    { unfold fits. destruct Hbooks as (Hwf & Hl & _ & Ht & _).
      rewrite length_app in Hone.
      destruct (AudioQueue p) as [|front [|second rest]]; [exact I| |cbn in Hone; lia].
      destruct (AudioSwapQueue p); [|cbn in Hone; lia].
      change (total_size [front]) with (size front + 0) in Hl.
      change (total_size []) with 0 in Hl, Ht. lia. }
    destruct (mix_within_head p len Hbooks Hlen Hfits ltac:(lia))
      as (q & out & Hcb & Hmixed & _ & Hok & _ & _ & Hsame).
    exists q, out. eexists. split; [exact Hcb|]. split; [exact Hok|].
    split; [rewrite Hsame; exact Hone | exact Hmixed].
Qed.

(** X6: a session of one stream never faults and never reads a byte
    outside the buffer of the stream, with repeat on or off and
    whatever lengths the device asks for. *)
Theorem one_stream_session_safe (lens : list Z) :
  forall (p : player)
         (Hbooks : books_ok p)
         (Hone : (List.length (AudioSwapQueue p ++ AudioQueue p) <= 1)%nat)
         (Hlens : Forall valid_len lens),
  exists q outs bytes,
    callbacks_seq lens p = Ok (q, outs) /\
    delivered outs = map Some bytes /\
    books_ok q /\
    (List.length (AudioSwapQueue q ++ AudioQueue q) <= 1)%nat.
Proof.
  induction lens as [|len lens IH]; intros p Hbooks Hone Hlens.
  - exists p, [], []. split; [reflexivity|]. split; [reflexivity|].
    split; [exact Hbooks | exact Hone].
  - inversion Hlens as [|? ? Hlen Hrest]; subst.
    destruct (one_stream_step p len Hbooks Hone Hlen)
      as (q & out & bytes & Hcb & Hok & Hone' & Hmixed).
    destruct (IH q Hok Hone' Hrest) as (q' & outs & bytes' & Hrun & Hdel & Hok' & Hone'').
    exists q', (out :: outs), (bytes ++ bytes').
    split; [cbn [callbacks_seq]; rewrite Hcb; cbn [bind]; rewrite Hrun; reflexivity|].
    split; [|split; assumption].
    change (delivered (out :: outs)) with (mixed_bytes out ++ delivered outs).
    rewrite Hmixed, Hdel, map_app. reflexivity.
Qed.

Lemma books_ok_playing_tone : books_ok playing_tone.
Proof.
  unfold books_ok, playing_tone, INT_MAX. cbn.
  split; [constructor; [exists (repeat x01 8); split; reflexivity | constructor]|].
  repeat split; try lia.
Qed.

Lemma valid_lens_3_3_5 : Forall valid_len [3; 3; 5].
Proof. repeat constructor; unfold valid_len, INT_MAX; lia. Qed.

(** X4, witness: four more bytes of [tone]. *)
Lemma AudioCallback_within_head_witness :
  exists q out,
    AudioCallback playing_tone 4 = Ok (q, out) /\
    mixed_bytes out = repeat (Some x01) 4 /\
    pending_bytes q = [].
Proof.
  destruct (AudioCallback_within_head playing_tone 4 books_ok_playing_tone)
    as (q & out & Hcb & Hmixed & Hpend & _).
  - unfold valid_len, INT_MAX. lia.
  - unfold fits. cbn. lia.
  - cbn. lia.
  - exists q, out. split; [exact Hcb|]. split; [exact Hmixed | exact Hpend].
Defined.

(** X5, witness: the device asks for 3, 3 and 5 bytes of the last four
    of [tone]. *)
Lemma last_stream_delivery_witness :
  exists q outs,
    callbacks_seq [3; 3; 5] playing_tone = Ok (q, outs) /\
    delivered outs = repeat (Some x01) 4 /\
    pending_bytes q = [].
Proof.
  destruct (last_stream_delivery [3; 3; 5] playing_tone books_ok_playing_tone
              eq_refl ltac:(cbn; lia) valid_lens_3_3_5)
    as (q & outs & Hrun & Hdel & Hpend & _).
  exists q, outs. split; [exact Hrun|]. split; [exact Hdel | exact Hpend].
Defined.

(** X6, witness: the same lengths. *)
Lemma one_stream_session_safe_witness :
  exists q outs bytes,
    callbacks_seq [3; 3; 5] playing_tone = Ok (q, outs) /\
    delivered outs = map Some bytes.
Proof.
  destruct (one_stream_session_safe [3; 3; 5] playing_tone books_ok_playing_tone
              ltac:(cbn; lia) valid_lens_3_3_5)
    as (q & outs & bytes & Hrun & Hdel & _).
  exists q, outs, bytes. split; [exact Hrun | exact Hdel].
Defined.

(** ** Streams that are whole numbers of buffers *)

Section AlignedDelivery.

Variable len : Z.
Hypothesis len_pos : 0 < len.
Hypothesis len_int : len <= INT_MAX.

(** Buffers of [len] bytes read one after the other are the bytes of
    the stream. *)
Lemma chunks_are_the_bytes (d : list byte) (m : nat) :
  forall j : nat,
    Z.of_nat (j + m) * len <= Z.of_nat (List.length d) ->
    flat_map (fun i => read_bytes d (Z.of_nat i * len) len) (seq j m) =
      map Some (firstn (Z.to_nat (Z.of_nat m * len))
                       (skipn (Z.to_nat (Z.of_nat j * len)) d)).
Proof.
  induction m as [|m IH]; intros j Hin; [reflexivity|].
  cbn [seq flat_map].
  rewrite read_bytes_inside by nia.
  rewrite (IH (S j)) by (replace (S j + m)%nat with (j + S m)%nat by lia; exact Hin).
  replace (Z.of_nat (S m) * len) with (len + Z.of_nat m * len) by lia.
  rewrite Z2Nat.inj_add by nia.
  rewrite firstn_add, map_app, skipn_skipn.
  replace (Z.of_nat (S j) * len) with (len + Z.of_nat j * len) by lia.
  rewrite Z2Nat.inj_add by nia.
  reflexivity.
Qed.

Lemma stream_buffers_bytes (p : player) (s : hx_audio_stream) :
  aligned len s ->
  delivered (stream_buffers p len s) = map Some (stream_bytes s).
Proof.
  intros (d & k & Hd & Hsz & Hk).
  unfold stream_buffers, stream_bytes, delivered. rewrite Hd.
  rewrite Hk, Z.div_mul, Nat2Z.id by lia.
  rewrite flat_map_concat_map, map_map, <- flat_map_concat_map.
  cbn [mixed_bytes chunk mixed].
  rewrite (chunks_are_the_bytes d (S k) 0) by (cbn [Nat.add]; lia).
  change (Z.of_nat 0 * len) with 0. cbn [Z.to_nat skipn].
  rewrite firstn_all2 by lia. reflexivity.
Qed.

Lemma queue_buffers_bytes (p : player) (l : list hx_audio_stream) :
  Forall (aligned len) l ->
  delivered (flat_map (stream_buffers p len) l) = map Some (flat_map stream_bytes l).
Proof.
  induction 1 as [|s l Hs _ IH]; [reflexivity|].
  cbn [flat_map]. unfold delivered in *. rewrite flat_map_app, map_app.
  rewrite IH. f_equal. apply stream_buffers_bytes. exact Hs.
Qed.



Lemma callbacks_fault_after (n m : nat) (p q : player) (outs : list out_buffer)
    (f : fault) :
  callbacks n len p = Ok (q, outs) ->
  callbacks m len q = Fault f ->
  callbacks (n + m) len p = Fault f.
Proof.
  revert p outs. induction n as [|n IH]; intros p outs Hn Hm.
  - cbn in Hn. injection Hn as <- <-. exact Hm.
  - cbn [callbacks Nat.add] in *.
    destruct (AudioCallback p len) as [[p1 o]|]; [|discriminate Hn]. cbn [bind] in *.
    destruct (callbacks n len p1) as [[p2 os]|] eqn:E; [|discriminate Hn].
    cbn [bind] in Hn. injection Hn as <- <-.
    rewrite (IH p1 os E Hm). reflexivity.
Qed.

(** X9: when every pending stream is a whole number of buffers of
    [len] bytes, the offset is 0 and [AudioLength] counts more bytes
    than the played bytes and the streams of the queue make up, the
    invocations for [len] bytes deliver every byte of the queue and
    the invocation after them takes the front of the empty queue. *)
Theorem overcounted_session_faults (p : player)
    (Haligned : Forall (aligned len) (AudioQueue p))
    (Hpos : AudioPosition p = 0)
    (Htotal : 0 <= AudioPositionTotal p)
    (Hover : AudioPositionTotal p + total_size (AudioQueue p) < AudioLength p)
    (Hmax : AudioLength p <= INT_MAX) :
  exists q outs,
    callbacks (buffers len (AudioQueue p)) len p = Ok (q, outs) /\
    delivered outs = map Some (flat_map stream_bytes (AudioQueue p)) /\
    AudioCallback q len = Fault FrontOfEmptyDeque /\
    callbacks (buffers len (AudioQueue p) + 1) len p = Fault FrontOfEmptyDeque.
Proof.
  pose proof (callbacks_queue len len_pos len_int (AudioQueue p) Haligned p
                (AudioSwapQueue p) (AudioPositionTotal p) (AudioQueueIndex p)
                Htotal ltac:(lia) Hmax) as Hrun.
  replace (session p 0 (AudioPositionTotal p) (AudioQueueIndex p) (AudioQueue p)
             (AudioSwapQueue p)) with p in Hrun
    by (destruct p; cbn in *; subst; reflexivity).
  assert (Hsz : 0 <= total_size (AudioQueue p)).
  { apply total_size_nonneg. apply Forall_forall. intros x Hx.
    pose proof (proj1 (Forall_forall _ _) Haligned x Hx) as Hal.
    destruct Hal as (d & k & _ & Hd & _). lia. }
  match type of Hrun with _ = Ok (?q0, _) => set (q := q0) in * end.
  assert (Hfault : AudioCallback q len = Fault FrontOfEmptyDeque).
  { apply AudioCallback_empty_queue; [reflexivity|].
    rewrite clamp_len_min; subst q; cbn; lia. }
  exists q. eexists. split; [exact Hrun|].
  split; [apply queue_buffers_bytes; exact Haligned|].
  split; [exact Hfault|].
  eapply callbacks_fault_after; [exact Hrun|].
  cbn [callbacks]. rewrite Hfault. reflexivity.
Qed.


End AlignedDelivery.


Lemma aligned_tone : aligned 4 tone.
Proof. exists (repeat x01 8), 1%nat. repeat split. Qed.

Lemma four_is_a_length : 0 < 4 /\ 4 <= INT_MAX.
Proof. unfold INT_MAX. lia. Qed.



(** X9, witness: [replayed] counts 24 bytes and holds 16. *)
Lemma overcounted_session_faults_witness :
  callbacks 5 4 replayed = Fault FrontOfEmptyDeque.
Proof.
  destruct (overcounted_session_faults 4 (proj1 four_is_a_length) (proj2 four_is_a_length)
              replayed
              (Forall_cons _ aligned_tone (Forall_cons _ aligned_tone (Forall_nil _)))
              eq_refl ltac:(cbn; lia) ltac:(cbn; lia) ltac:(unfold INT_MAX; cbn; lia))
    as (q & outs & _ & _ & _ & Hfault).
  exact Hfault.
Defined.

(** ** What AudioPlay counts *)

Section AudioPlayAccounting.

Variable hx_audio_convert : hx_audio_stream -> hx_format -> convert_result.

(** [AudioPlay] on a device that is not playing, with one stream in
    the queue, which converts: the loop makes its one pass. *)
Lemma AudioPlay_one_stream (driver_ok : bool) (p : player) (s pcm : hx_audio_stream) :
  SDL_GetAudioStatus p <> SDL_AUDIO_PLAYING ->
  AudioQueue p = [s] ->
  converts hx_audio_convert s pcm ->
  exists dev,
    AudioPlay hx_audio_convert driver_ok p =
      set_device dev
        (set_AudioPosition 0
           (set_AudioChannelCount (to_u8 (num_channels (info pcm)))
              (set_AudioSampleRate (to_s32 (sample_rate (info pcm)))
                 (set_AudioQueue [pcm]
                    (set_AudioLength (to_s32 (AudioLength p + size pcm)) p))))) /\
    (SDL_GetAudioStatus p = SDL_AUDIO_STOPPED ->
     dev = if driver_ok then SDL_AUDIO_PLAYING else SDL_AUDIO_STOPPED).
Proof.
  intros Hdev Hq Hconv. unfold converts in Hconv.
  unfold AudioPlay, SDL_GetAudioStatus in *.
  assert (E : SDL_AudioStatus_eqb (device p) SDL_AUDIO_PLAYING = false)
    by (destruct (device p); [reflexivity | contradiction | reflexivity]).
  rewrite E, Hq. cbn [AudioPlay_loop]. rewrite Hconv.
  cbn [AudioQueue set_AudioLength set_AudioQueue set_AudioPosition
       set_AudioChannelCount set_AudioSampleRate freq channels].
  rewrite Hq. cbn [tl app].
  change (0 <? Z.of_nat (List.length [pcm])) with true. cbv iota.
  unfold SDL_OpenAudio, SDL_PauseAudio.
  destruct p as [L P T I R V SR CC Q SQ LG PE dev rel]; cbn in *.
  destruct dev, driver_ok; cbn;
    try contradiction (Hdev eq_refl);
    eexists; (split; [reflexivity|]); intros H; first [reflexivity | discriminate H].
Qed.

(** X10: with one stream in the queue and the device not playing,
    [AudioPlay] puts the conversion of the stream in its place and
    adds its size to what [AudioLength] held, which it does not reset
    (only [AudioClear] does, and [AudioPlay] calls it only on a
    playing device); the offset becomes 0, the delivered bytes and the
    played queue stay, and the sample rate and the channel count are
    those of the conversion. *)
Theorem AudioPlay_accounting (driver_ok : bool) (p : player)
    (s pcm : hx_audio_stream)
    (Hdev : SDL_GetAudioStatus p <> SDL_AUDIO_PLAYING)
    (Hqueue : AudioQueue p = [s])
    (Hconv : converts hx_audio_convert s pcm)
    (Hsize : 0 <= size pcm)
    (Hlen : 0 <= AudioLength p)
    (Hfit : AudioLength p + size pcm <= INT_MAX) :
  let q := AudioPlay hx_audio_convert driver_ok p in
  AudioQueue q = [pcm] /\
  AudioLength q = AudioLength p + size pcm /\
  AudioPosition q = 0 /\
  AudioPositionTotal q = AudioPositionTotal p /\
  AudioSwapQueue q = AudioSwapQueue p /\
  AudioSampleRate q = to_s32 (sample_rate (info pcm)) /\
  AudioChannelCount q = to_u8 (num_channels (info pcm)).
Proof.
  intros q. subst q.
  destruct (AudioPlay_one_stream driver_ok p s pcm Hdev Hqueue Hconv) as (dev & -> & _).
  rewrite (to_s32_small (AudioLength p + size pcm)) by lia.
  destruct p; cbn. repeat split; reflexivity.
Qed.

Lemma AudioPlay_session_start (p : player) (s pcm : hx_audio_stream)
    (Hdev : SDL_GetAudioStatus p = SDL_AUDIO_STOPPED)
    (Hlen : AudioLength p = 0)
    (Htotal : AudioPositionTotal p = 0)
    (Hswap : AudioSwapQueue p = [])
    (Hqueue : AudioQueue p = [s])
    (Hconv : converts hx_audio_convert s pcm)
    (Hwf : wf_stream pcm)
    (Hfit : size pcm <= INT_MAX) :
  (books_ok (AudioPlay hx_audio_convert true p) /\
   AudioQueue (AudioPlay hx_audio_convert true p) = [pcm] /\
   SDL_GetAudioStatus (AudioPlay hx_audio_convert true p) = SDL_AUDIO_PLAYING) /\
  (SDL_GetAudioStatus (AudioPlay hx_audio_convert false p) = SDL_AUDIO_STOPPED /\
   AudioQueue (AudioPlay hx_audio_convert false p) = [pcm] /\
   AudioLength (AudioPlay hx_audio_convert false p) = size pcm).
Proof.
  assert (Hnp : SDL_GetAudioStatus p <> SDL_AUDIO_PLAYING) by (rewrite Hdev; discriminate).
  destruct (wf_stream_size pcm Hwf) as [_ Hsz].
  assert (Hla : to_s32 (AudioLength p + size pcm) = size pcm).
  { rewrite Hlen, Z.add_0_l. apply to_s32_small. lia. }
  split.
  - destruct (AudioPlay_one_stream true p s pcm Hnp Hqueue Hconv) as (dev & -> & Hd).
    rewrite (Hd Hdev), Hla.
    split; [|split; reflexivity].
    unfold books_ok. cbn -[total_size]. rewrite Hswap, Htotal.
    change (total_size []) with 0. change (total_size [pcm]) with (size pcm + 0).
    split; [repeat constructor; exact Hwf|]. split; [lia|]. split; [exact Hfit|].
    split; [reflexivity|]. left. reflexivity.
  - destruct (AudioPlay_one_stream false p s pcm Hnp Hqueue Hconv) as (dev & -> & Hd).
    rewrite (Hd Hdev), Hla. cbn. repeat split; reflexivity.
Qed.

(** X11: on a closed device and a cleared player with one stream in
    the queue, which converts, [AudioPlay] starts a session whose
    counters agree with its queue.  When the driver refuses to open
    the device, the device stays closed while the stream stays queued
    and its size stays counted in [AudioLength]. *)
Theorem AudioPlay_opens_session (p : player) (s pcm : hx_audio_stream)
    (Hdev : SDL_GetAudioStatus p = SDL_AUDIO_STOPPED)
    (Hlen : AudioLength p = 0)
    (Htotal : AudioPositionTotal p = 0)
    (Hswap : AudioSwapQueue p = [])
    (Hqueue : AudioQueue p = [s])
    (Hconv : converts hx_audio_convert s pcm)
    (Hwf : wf_stream pcm)
    (Hfit : size pcm <= INT_MAX) :
  (books_ok (AudioPlay hx_audio_convert true p) /\
   AudioQueue (AudioPlay hx_audio_convert true p) = [pcm] /\
   SDL_GetAudioStatus (AudioPlay hx_audio_convert true p) = SDL_AUDIO_PLAYING) /\
  (SDL_GetAudioStatus (AudioPlay hx_audio_convert false p) = SDL_AUDIO_STOPPED /\
   AudioQueue (AudioPlay hx_audio_convert false p) = [pcm] /\
   AudioLength (AudioPlay hx_audio_convert false p) = size pcm).
Proof. eapply AudioPlay_session_start; eassumption. Qed.

End AudioPlayAccounting.

Lemma wf_stream_of (id : Z) (f : hx_format) (d : list byte) : wf_stream (stream_of id f d).
Proof. exists d. split; reflexivity. Qed.

(** X10, witness: [opening], four bytes, on a player that counts 8
    bytes already. *)
Lemma AudioPlay_accounting_witness :
  AudioQueue (AudioPlay hx_audio_convert_spec true (set_AudioLength 8 one_loaded)) =
    [opening] /\
  AudioLength (AudioPlay hx_audio_convert_spec true (set_AudioLength 8 one_loaded)) = 12.
Proof.
  destruct (AudioPlay_accounting hx_audio_convert_spec true (set_AudioLength 8 one_loaded)
              opening opening)
    as (Hq & Hl & _).
  - discriminate.
  - reflexivity.
  - reflexivity.
  - cbn; lia.
  - cbn; lia.
  - unfold INT_MAX; cbn; lia.
  - split; [exact Hq | exact Hl].
Defined.

(** X11, witness: [opening] on the player as it starts. *)
Lemma AudioPlay_opens_session_witness :
  books_ok (AudioPlay hx_audio_convert_spec true one_loaded) /\
  AudioLength (AudioPlay hx_audio_convert_spec false one_loaded) = 4.
Proof.
  destruct (AudioPlay_opens_session hx_audio_convert_spec one_loaded opening opening
              eq_refl eq_refl eq_refl eq_refl eq_refl eq_refl)
    as ((Hb & _) & (_ & _ & Hl)).
  - apply wf_stream_of.
  - unfold INT_MAX; cbn; lia.
  - split; [exact Hb | exact Hl].
Defined.

(** ** A request that is longer than what is left of the head *)

Lemma seq_offset (a b : nat) : seq a b = map (Nat.add a) (seq 0 b).
Proof.
  induction a as [|a IH]; [rewrite map_id; reflexivity|].
  rewrite <- seq_shift, IH, map_map. reflexivity.
Qed.

Lemma read_bytes_app (d : list byte) (off a b : Z) :
  0 <= a -> 0 <= b ->
  read_bytes d off (a + b) = read_bytes d off a ++ read_bytes d (off + a) b.
Proof.
  intros Ha Hb. unfold read_bytes.
  rewrite Z2Nat.inj_add, seq_app, map_app by lia. f_equal.
  cbn [Nat.add]. rewrite seq_offset, map_map.
  apply map_ext. intros k. f_equal. lia.
Qed.

Lemma read_bytes_outside (d : list byte) (off n : Z) :
  Z.of_nat (List.length d) <= off ->
  read_bytes d off n = repeat None (Z.to_nat n).
Proof.
  intros Hout. unfold read_bytes.
  assert (Hall : forall l : list nat,
             map (fun k => byte_at d (off + Z.of_nat k)) l = repeat None (List.length l)).
  { induction l as [|k l IH]; [reflexivity|].
    cbn [map List.length repeat]. rewrite IH. f_equal.
    unfold byte_at. destruct (off + Z.of_nat k <? 0) eqn:E; [reflexivity|].
    apply nth_error_None. lia. }
  rewrite Hall, length_seq. reflexivity.
Qed.

(** X12: when the length to mix is more than what is left of the head
    stream, as a buffer that crosses into the next stream is, the
    callback hands [SDL_MixAudio] the rest of the head followed by
    bytes from outside its buffer, counts all of them as delivered and
    goes on at the start of the next stream: from then on the counters
    disagree with the queues. *)
Theorem AudioCallback_reads_past_head (p : player) (len : Z)
    (front : hx_audio_stream) (rest : list hx_audio_stream) (d : list byte)
    (Hbooks : books_ok p)
    (Hlen : valid_len len)
    (Hqueue : AudioQueue p = front :: rest)
    (Hdata : data front = Some d)
    (Hcross : size front - AudioPosition p <
              Z.min len (AudioLength p - AudioPositionTotal p)) :
  exists q out,
    AudioCallback p len = Ok (q, out) /\
    mixed_bytes out =
      map Some (skipn (Z.to_nat (AudioPosition p)) d) ++
      repeat None (Z.to_nat (Z.min len (AudioLength p - AudioPositionTotal p)
                             - (size front - AudioPosition p))) /\
    AudioQueue q = rest /\
    AudioSwapQueue q = AudioSwapQueue p ++ [front] /\
    AudioPosition q = 0 /\
    AudioPositionTotal q =
      AudioPositionTotal p + Z.min len (AudioLength p - AudioPositionTotal p) /\
    ~ books_ok q.
Proof.
  destruct (books_ok_remaining p Hbooks) as (Hp & Htl & _).
  destruct Hbooks as (Hwf & Hl & Hm & Ht & Hh).
  unfold valid_len in Hlen.
  pose proof (clamp_len_min p len ltac:(lia) ltac:(lia) Hm) as Hclamp.
  set (n := Z.min len (AudioLength p - AudioPositionTotal p)) in *.
  rewrite Hqueue in *.
  pose proof Hwf as Hwf'. apply Forall_app in Hwf' as [Hws Hwq].
  inversion Hwq as [|? ? Hfront Hrest]; subst.
  destruct Hfront as (d' & Hd' & Hsz).
  rewrite Hdata in Hd'. injection Hd' as <-.
  destruct (stream_bytes_length _ Hws) as [_ Hs0].
  destruct (stream_bytes_length _ Hrest) as [_ Hr0].
  change (total_size (front :: rest)) with (size front + total_size rest) in *.
  assert (Hn : 0 < n) by lia.
  assert (Hread : read_bytes d (AudioPosition p) n =
                  map Some (skipn (Z.to_nat (AudioPosition p)) d) ++
                  repeat None (Z.to_nat (n - (size front - AudioPosition p)))).
  { replace n with ((size front - AudioPosition p) + (n - (size front - AudioPosition p)))
      at 1 by lia.
    rewrite read_bytes_app by lia.
    rewrite read_bytes_inside, read_bytes_outside by lia.
    rewrite firstn_all2 by (rewrite length_skipn; lia). reflexivity. }
  unfold AudioCallback. rewrite Hclamp.
  destruct (n =? 0) eqn:E0; [apply Z.eqb_eq in E0; lia|].
  rewrite Hqueue, Hdata.
  cbn [AudioPosition AudioPositionTotal set_AudioPosition set_AudioPositionTotal].
  rewrite (to_s32_small (AudioPosition p + n)), (to_s32_small (AudioPositionTotal p + n))
    by lia.
  rewrite !to_u32_small by (unfold two32, INT_MAX in *; lia).
  destruct (AudioPosition p + n >=? size front) eqn:Epop;
    [|rewrite Z.geb_leb in Epop; apply Z.leb_gt in Epop; lia].
  eexists. eexists. split; [reflexivity|].
  split; [exact Hread|].
  split; [reflexivity|]. split; [reflexivity|]. split; [reflexivity|].
  split; [reflexivity|].
  intros (_ & _ & _ & Ht' & _). cbn -[total_size] in Ht'.
  rewrite total_size_app in Ht'.
  change (total_size [front]) with (size front + 0) in Ht'. lia.
Qed.

(** X12, witness: four bytes are asked for and [blip] holds two. *)
Lemma AudioCallback_reads_past_head_witness :
  exists q out,
    AudioCallback short_head 4 = Ok (q, out) /\
    mixed_bytes out = [Some x09; Some x09; None; None] /\
    AudioQueue q = [tone] /\
    AudioPositionTotal q = 4.
Proof.
  destruct (AudioCallback_reads_past_head short_head 4 blip [tone] (repeat x09 2))
    as (q & out & Hcb & Hmixed & Hq & _ & _ & Ht & _).
  - unfold books_ok, short_head, INT_MAX. cbn.
    split; [repeat constructor; apply wf_stream_of|]. repeat split; try lia.
  - unfold valid_len, INT_MAX. lia.
  - reflexivity.
  - reflexivity.
  - cbn. lia.
  - exists q, out. split; [exact Hcb|]. split; [exact Hmixed|].
    split; [exact Hq | exact Ht].
Defined.

(** ** QueueAudioEntry: an event that links to a wave resource *)

Lemma hx_class_eqb_eq (a b : hx_class) : hx_class_eqb a b = true <-> a = b.
Proof. destruct a, b; cbn; split; intros H; solve [reflexivity | discriminate H]. Qed.

Lemma hx_class_eqb_neq (a b : hx_class) : a <> b -> hx_class_eqb a b = false.
Proof.
  intros H. destruct (hx_class_eqb a b) eqn:E; [|reflexivity].
  apply hx_class_eqb_eq in E. contradiction.
Qed.

Lemma AudioLoad_loaded (p : player) (s : hx_audio_stream) :
  fst (AudioLoad p s) = loaded [s] (settle p).
Proof.
  rewrite AudioLoad_settle.
  destruct (loaded_cons s [] (settle p) (settle_stopped p)) as [-> _].
  rewrite loaded_nil. reflexivity.
Qed.

Section QueueAudioEntryFacts.

Variable hx_audio_convert : hx_audio_stream -> hx_format -> convert_result.

Lemma AudioPlay_loop_PlayingEvent (visit : list hx_audio_stream) :
  forall audio p,
    PlayingEvent (fst (AudioPlay_loop hx_audio_convert visit audio p)) = PlayingEvent p.
Proof.
  induction visit as [|s visit IH]; intros audio p; [reflexivity|].
  cbn [AudioPlay_loop]. destruct (hx_audio_convert s HX_FORMAT_PCM) as [o|].
  - rewrite IH. reflexivity.
  - reflexivity.
Qed.

Lemma AudioPlay_PlayingEvent (driver_ok : bool) (p : player) :
  PlayingEvent (AudioPlay hx_audio_convert driver_ok p) = PlayingEvent p.
Proof.
  unfold AudioPlay.
  set (p0 := if SDL_AudioStatus_eqb (SDL_GetAudioStatus p) SDL_AUDIO_PLAYING
             then AudioClear p else p).
  assert (H0 : PlayingEvent p0 = PlayingEvent p)
    by (subst p0; destruct (SDL_AudioStatus_eqb _ _); reflexivity).
  pose proof (AudioPlay_loop_PlayingEvent (AudioQueue p0) (mkSpec 0 0) p0) as Hl.
  destruct (AudioPlay_loop hx_audio_convert (AudioQueue p0) (mkSpec 0 0) p0) as [q [audio|]];
    cbn [fst] in Hl; [|congruence].
  rewrite <- H0, <- Hl.
  destruct (0 <? _); [|reflexivity].
  unfold SDL_OpenAudio, SDL_PauseAudio. cbn.
  destruct (device q), driver_ok; reflexivity.
Qed.

Lemma QueueAudioEntry_wave_resource_run
    (hx : hx_t) (driver_ok : bool) (e lnk file : hx_entry)
    (ev : hx_event_resource_data) (w : hx_wav_resource_data)
    (o : hx_wave_file_id_object) (p : player)
    (Hclass : i_class e = HX_CLASS_EVENT_RESOURCE_DATA)
    (Hev : e_data e = event_data ev)
    (Hlnk : hx_context_find_entry hx (link ev) = Some lnk)
    (Hwav : i_class lnk = HX_CLASS_WAVE_RESOURCE_DATA)
    (Hdata : e_data lnk = wave_resource_data w)
    (Hdef : hx_context_find_entry hx (default_cuuid w) = Some file)
    (Hfile : e_data file = wave_file_data o) :
  exists q,
    QueueAudioEntry hx_audio_convert hx driver_ok e p = Ok q /\
    q = AudioPlay hx_audio_convert driver_ok
          (set_PlayingEvent (Some e) (loaded [audio_stream o] (settle p))) /\
    PlayingEvent q = Some e /\
    (data (audio_stream o) = None ->
     loaded [audio_stream o] (settle p) = Log_push_back load_error (settle p)).
Proof.
  eexists. split; [|split; [reflexivity|split]].
  - unfold QueueAudioEntry. rewrite Hclass. cbn [hx_class_eqb].
    unfold as_event. rewrite Hev. cbn [bind]. rewrite Hlnk, Hwav. cbn [hx_class_eqb].
    unfold as_wave_resource. rewrite Hdata. cbn [bind]. rewrite Hdef.
    unfold as_wave_file. rewrite Hfile. cbn [bind].
    pose proof (AudioLoad_result p (audio_stream o)) as Hr.
    pose proof (AudioLoad_loaded p (audio_stream o)) as Hq.
    destruct (AudioLoad p (audio_stream o)) as [p1 r]. cbn [fst snd] in Hr, Hq.
    assert (Hnz : negb (r =? 0) = true)
      by (rewrite Hr; destruct (data (audio_stream o)); reflexivity).
    rewrite Hnz, Hq. reflexivity.
  - rewrite AudioPlay_PlayingEvent. reflexivity.
  - intros Hnone. unfold loaded, Log_push_back. cbn [filter].
    unfold has_data. rewrite Hnone. cbn. rewrite app_nil_r.
    destruct (settle p); reflexivity.
Qed.

(** X13: when the link of an event names a wave resource whose
    default link names a wave file, the stream of that file goes to
    [AudioLoad], and whatever [AudioLoad] answers the event becomes
    [PlayingEvent] and [AudioPlay] is called: [AudioLoad] answers 1 or
    -1, and the test takes both for true.  A stream without data
    costs one load error and still makes the event the playing
    one. *)
Theorem QueueAudioEntry_wave_resource
    (hx : hx_t) (driver_ok : bool) (e lnk file : hx_entry)
    (ev : hx_event_resource_data) (w : hx_wav_resource_data)
    (o : hx_wave_file_id_object) (p : player)
    (Hclass : i_class e = HX_CLASS_EVENT_RESOURCE_DATA)
    (Hev : e_data e = event_data ev)
    (Hlnk : hx_context_find_entry hx (link ev) = Some lnk)
    (Hwav : i_class lnk = HX_CLASS_WAVE_RESOURCE_DATA)
    (Hdata : e_data lnk = wave_resource_data w)
    (Hdef : hx_context_find_entry hx (default_cuuid w) = Some file)
    (Hfile : e_data file = wave_file_data o) :
  exists q,
    QueueAudioEntry hx_audio_convert hx driver_ok e p = Ok q /\
    q = AudioPlay hx_audio_convert driver_ok
          (set_PlayingEvent (Some e) (loaded [audio_stream o] (settle p))) /\
    PlayingEvent q = Some e /\
    (data (audio_stream o) = None ->
     loaded [audio_stream o] (settle p) = Log_push_back load_error (settle p)).
Proof. eapply QueueAudioEntry_wave_resource_run; eassumption. Qed.

(** X14: an entry that is not an event, an event whose link names no
    entry or an entry that is neither a wave resource nor a program,
    and an event whose wave resource has a default link that names no
    entry: [QueueAudioEntry] leaves the player as it is.  It stops
    nothing, loads nothing and writes nothing to the log. *)
Theorem QueueAudioEntry_nothing_to_play
    (hx : hx_t) (driver_ok : bool) (e : hx_entry) (p : player)
    (Hnothing : nothing_to_play hx e) :
  QueueAudioEntry hx_audio_convert hx driver_ok e p = Ok p.
Proof.
  unfold QueueAudioEntry.
  destruct Hnothing as [Hne | ev Hev Hlnk | ev lnk Hev Hlnk Hw Hp
                       | ev lnk w Hev Hlnk Hw Hdata Hdef].
  - rewrite (hx_class_eqb_neq _ _ Hne). reflexivity.
  - destruct (hx_class_eqb _ _); [|reflexivity].
    unfold as_event. rewrite Hev. cbn [bind]. rewrite Hlnk. reflexivity.
  - destruct (hx_class_eqb (i_class e) _); [|reflexivity].
    unfold as_event. rewrite Hev. cbn [bind]. rewrite Hlnk.
    rewrite (hx_class_eqb_neq _ _ Hw), (hx_class_eqb_neq _ _ Hp). reflexivity.
  - destruct (hx_class_eqb (i_class e) _); [|reflexivity].
    unfold as_event. rewrite Hev. cbn [bind]. rewrite Hlnk, Hw. cbn [hx_class_eqb].
    unfold as_wave_resource. rewrite Hdata. cbn [bind]. rewrite Hdef. reflexivity.
Qed.


End QueueAudioEntryFacts.

(** X13, witness: the event W of [scenario_B]. *)
Lemma QueueAudioEntry_wave_resource_witness :
  exists q,
    QueueAudioEntry hx_audio_convert_spec scenario_B true event_W initial = Ok q /\
    PlayingEvent q = Some event_W.
Proof.
  destruct (QueueAudioEntry_wave_resource hx_audio_convert_spec scenario_B true event_W
              (mkEntry 301 HX_CLASS_WAVE_RESOURCE_DATA
                 (wave_resource_data (mkWaveRes 401 [])))
              (mkEntry 401 HX_CLASS_WAVE_FILE_ID_OBJECT
                 (wave_file_data (mkWaveFile wave_500)))
              (mkEvent "W" 301) (mkWaveRes 401 []) (mkWaveFile wave_500) initial
              eq_refl eq_refl eq_refl eq_refl eq_refl eq_refl eq_refl)
    as (q & Hrun & _ & Hpe & _).
  exists q. split; [exact Hrun | exact Hpe].
Defined.

(** X14, witness: the link of the event D names no entry. *)
Lemma QueueAudioEntry_nothing_to_play_witness :
  QueueAudioEntry hx_audio_convert_spec scenario_B true event_D playing_tone =
    Ok playing_tone.
Proof.
  apply QueueAudioEntry_nothing_to_play.
  apply (link_dangles scenario_B event_D (mkEvent "D" 999)); reflexivity.
Defined.



(** ** A stream that does not convert, at the head of the queue *)

Section Wedged.

Variable hx_audio_convert : hx_audio_stream -> hx_format -> convert_result.

Lemma AudioPlay_wedged (driver_ok : bool) (p : player)
    (bad : hx_audio_stream) (rest : list hx_audio_stream) :
  SDL_GetAudioStatus p <> SDL_AUDIO_PLAYING ->
  AudioQueue p = bad :: rest ->
  hx_audio_convert bad HX_FORMAT_PCM = UnsupportedCodec ->
  AudioPlay hx_audio_convert driver_ok p = Log_push_back (codec_error bad) p.
Proof.
  intros Hdev Hq Hbad. unfold AudioPlay, SDL_GetAudioStatus in *.
  assert (E : SDL_AudioStatus_eqb (device p) SDL_AUDIO_PLAYING = false)
    by (destruct (device p); [reflexivity | contradiction | reflexivity]).
  rewrite E, Hq. cbn [AudioPlay_loop]. rewrite Hbad. reflexivity.
Qed.

Lemma wedged_AudioPlay (driver_ok : bool) (p : player) :
  wedged hx_audio_convert p -> wedged hx_audio_convert (AudioPlay hx_audio_convert driver_ok p).
Proof.
  intros (Hdev & bad & rest & Hq & Hbad).
  rewrite (AudioPlay_wedged driver_ok p bad rest) by (try assumption; rewrite Hdev; discriminate).
  split; [exact Hdev|]. exists bad, rest. split; [exact Hq | exact Hbad].
Qed.

Lemma wedged_set_PlayingEvent (x : option hx_entry) (p : player) :
  wedged hx_audio_convert p -> wedged hx_audio_convert (set_PlayingEvent x p).
Proof. intros H. exact H. Qed.

Lemma wedged_AudioLoad (p : player) (s : hx_audio_stream) :
  wedged hx_audio_convert p -> wedged hx_audio_convert (fst (AudioLoad p s)).
Proof.
  intros (Hdev & bad & rest & Hq & Hbad).
  rewrite (AudioLoad_stopped p s Hdev).
  destruct (data s); cbn [fst].
  - split; [exact Hdev|]. exists bad, (rest ++ [s]).
    split; [cbn; rewrite Hq; reflexivity | exact Hbad].
  - split; [exact Hdev|]. exists bad, rest. split; [exact Hq | exact Hbad].
Qed.

Lemma wedged_links (hx : hx_t) (ls : list Z) :
  forall success p q b,
    wedged hx_audio_convert p ->
    QueueAudioEntry_links hx ls success p = Ok (q, b) ->
    wedged hx_audio_convert q.
Proof.
  induction ls as [|l ls IH]; intros success p q b Hw Hrun.
  - cbn in Hrun. injection Hrun as <- _. exact Hw.
  - cbn [QueueAudioEntry_links] in Hrun.
    destruct (hx_context_find_entry hx l) as [e|]; [|exact (IH _ _ _ _ Hw Hrun)].
    destruct (as_wave_resource e) as [w|]; [|discriminate Hrun]. cbn [bind] in Hrun.
    destruct (hx_context_find_entry hx (default_cuuid w)) as [f|];
      [|exact (IH _ _ _ _ Hw Hrun)].
    destruct (as_wave_file f) as [o|]; [|discriminate Hrun]. cbn [bind] in Hrun.
    pose proof (wedged_AudioLoad p (audio_stream o) Hw) as Hw1.
    destruct (AudioLoad p (audio_stream o)) as [p1 r]. cbn [fst] in Hw1.
    exact (IH _ _ _ _ Hw1 Hrun).
Qed.

Lemma wedged_QueueAudioEntry (hx : hx_t) (driver_ok : bool) (e : hx_entry)
    (p q : player) :
  wedged hx_audio_convert p ->
  QueueAudioEntry hx_audio_convert hx driver_ok e p = Ok q ->
  wedged hx_audio_convert q.
Proof.
  intros Hw Hrun. unfold QueueAudioEntry in Hrun.
  destruct (hx_class_eqb (i_class e) _); [|injection Hrun as <-; exact Hw].
  destruct (as_event e) as [ev|]; [|discriminate Hrun]. cbn [bind] in Hrun.
  destruct (hx_context_find_entry hx (link ev)) as [lnk|]; [|injection Hrun as <-; exact Hw].
  destruct (hx_class_eqb (i_class lnk) HX_CLASS_WAVE_RESOURCE_DATA).
  - destruct (as_wave_resource lnk) as [w|]; [|discriminate Hrun]. cbn [bind] in Hrun.
    destruct (hx_context_find_entry hx (default_cuuid w)) as [f|];
      [|injection Hrun as <-; exact Hw].
    destruct (as_wave_file f) as [o|]; [|discriminate Hrun]. cbn [bind] in Hrun.
    pose proof (wedged_AudioLoad p (audio_stream o) Hw) as Hw1.
    destruct (AudioLoad p (audio_stream o)) as [p1 r]. cbn [fst] in Hw1.
    destruct (negb (r =? 0)); injection Hrun as <-; [|exact Hw1].
    apply wedged_AudioPlay, wedged_set_PlayingEvent. exact Hw1.
  - destruct (hx_class_eqb (i_class lnk) HX_CLASS_PROGRAM_RESOURCE_DATA);
      [|injection Hrun as <-; exact Hw].
    destruct (as_program lnk) as [prog|]; [|discriminate Hrun]. cbn [bind] in Hrun.
    destruct (0 <? num_links prog); [|injection Hrun as <-; exact Hw].
    destruct (QueueAudioEntry_links hx (links prog) false p) as [[p1 success]|] eqn:El;
      [|discriminate Hrun].
    cbn [bind] in Hrun.
    pose proof (wedged_links hx _ _ _ _ _ Hw El) as Hw1.
    destruct success; injection Hrun as <-; [|exact Hw1].
    apply wedged_AudioPlay, wedged_set_PlayingEvent. exact Hw1.
Qed.

Lemma wedged_do_click (hx : hx_t) (c : click) (p q : player) :
  wedged hx_audio_convert p ->
  do_click hx_audio_convert hx c p = Ok q ->
  wedged hx_audio_convert q.
Proof.
  intros Hw Hrun. pose proof Hw as (Hdev & bad & rest & Hq & Hbad).
  destruct c as [entry driver_ok | driver_ok | b]; cbn [do_click] in Hrun.
  - unfold PlayButton in Hrun. rewrite Hdev in Hrun.
    cbn [SDL_AudioStatus_eqb] in Hrun.
    destruct (PlayingEvent p); rewrite ?andb_false_r in Hrun;
      exact (wedged_QueueAudioEntry _ _ _ _ _ Hw Hrun).
  - unfold PlayerButton in Hrun.
    destruct (PlayingEvent p) as [playing|]; [|injection Hrun as <-; exact Hw].
    rewrite Hq in Hrun. change (0 <? Z.of_nat (List.length (bad :: rest))) with true in Hrun.
    cbv iota in Hrun. unfold SDL_PauseAudio, SDL_GetAudioStatus in *.
    rewrite Hdev in Hrun. injection Hrun as <-. exact Hw.
  - injection Hrun as <-. exact Hw.
Qed.

(** X16: once a stream that does not convert is at the head of the
    queue of a closed device, no click brings the device to play
    again: whatever is clicked, the play button of an entry, the
    button of the player or the repeat box, and in whatever order,
    that stream stays at the head of the queue and the device stays
    closed. *)
Theorem wedged_forever (hx : hx_t) (cs : list click) :
  forall (p q : player)
    (Hwedged : wedged hx_audio_convert p)
    (Hrun : do_clicks hx_audio_convert hx cs p = Ok q),
  wedged hx_audio_convert q.
Proof.
  induction cs as [|c cs IH]; intros p q Hw Hrun.
  - cbn in Hrun. injection Hrun as <-. exact Hw.
  - cbn [do_clicks] in Hrun.
    destruct (do_click hx_audio_convert hx c p) as [p1|] eqn:Ec; [|discriminate Hrun].
    cbn [bind] in Hrun.
    exact (IH p1 q (wedged_do_click hx c p p1 Hw Ec) Hrun).
Qed.

(** X17: on a closed device with an empty queue, the click on an event
    whose stream is loaded and does not convert leaves that stream at
    the head of the queue, with the device closed, the event as the
    playing one and one error in the log. *)
Theorem unsupported_stream_wedges
    (hx : hx_t) (driver_ok : bool) (e lnk file : hx_entry)
    (ev : hx_event_resource_data) (w : hx_wav_resource_data)
    (o : hx_wave_file_id_object) (p : player)
    (Hclass : i_class e = HX_CLASS_EVENT_RESOURCE_DATA)
    (Hev : e_data e = event_data ev)
    (Hlnk : hx_context_find_entry hx (link ev) = Some lnk)
    (Hwav : i_class lnk = HX_CLASS_WAVE_RESOURCE_DATA)
    (Hdata : e_data lnk = wave_resource_data w)
    (Hdef : hx_context_find_entry hx (default_cuuid w) = Some file)
    (Hfile : e_data file = wave_file_data o)
    (Hclosed : SDL_GetAudioStatus p = SDL_AUDIO_STOPPED)
    (Hempty : AudioQueue p = [])
    (Hloaded : data (audio_stream o) <> None)
    (Hbad : hx_audio_convert (audio_stream o) HX_FORMAT_PCM = UnsupportedCodec) :
  exists q,
    QueueAudioEntry hx_audio_convert hx driver_ok e p = Ok q /\
    wedged hx_audio_convert q /\
    AudioQueue q = [audio_stream o] /\
    PlayingEvent q = Some e /\
    Log q = Log p ++ [codec_error (audio_stream o)].
Proof.
  destruct (QueueAudioEntry_wave_resource_run hx_audio_convert hx driver_ok e lnk file
              ev w o p Hclass Hev Hlnk Hwav Hdata Hdef Hfile) as (q & Hrun & Hq & Hpe & _).
  exists q. split; [exact Hrun|].
  assert (Hs : settle p = p).
  { unfold settle. rewrite Hclosed. reflexivity. }
  assert (Hl : loaded [audio_stream o] (settle p) = set_AudioQueue [audio_stream o] p).
  { rewrite Hs. unfold loaded. cbn [filter]. unfold has_data.
    destruct (data (audio_stream o)) as [d|]; [|contradiction Hloaded; reflexivity].
    cbn. rewrite Hempty, app_nil_r. destruct p; reflexivity. }
  rewrite Hl in Hq.
  rewrite (AudioPlay_wedged driver_ok _ (audio_stream o) []) in Hq;
    [| cbn; unfold SDL_GetAudioStatus in *; cbn; rewrite Hclosed; discriminate
     | reflexivity | exact Hbad].
  split; [|split; [|split; [exact Hpe|]]].
  - rewrite Hq. split; [exact Hclosed|].
    exists (audio_stream o), []. split; [reflexivity | exact Hbad].
  - rewrite Hq. reflexivity.
  - rewrite Hq. reflexivity.
Qed.

End Wedged.

Lemma wedged_stuck : wedged hx_audio_convert_spec stuck.
Proof. split; [reflexivity|]. exists verse, []. split; reflexivity. Qed.

(** X16, witness: after [verse] is stuck, the event W, the button of
    the player and the repeat box are clicked. *)
Lemma wedged_forever_witness :
  exists q,
    do_clicks hx_audio_convert_spec scenario_B
      [click_play event_W true; click_player true; click_repeat true] stuck = Ok q /\
    SDL_GetAudioStatus q = SDL_AUDIO_STOPPED.
Proof.
  eexists. split; [vm_compute; reflexivity|].
  refine (proj1 (wedged_forever hx_audio_convert_spec scenario_B
                   [click_play event_W true; click_player true; click_repeat true]
                   stuck _ wedged_stuck _)).
  vm_compute. reflexivity.
Defined.

(** X17, witness: the event V, whose stream is [verse]. *)
Lemma unsupported_stream_wedges_witness :
  exists q,
    QueueAudioEntry hx_audio_convert_spec scenario_V true event_V initial = Ok q /\
    wedged hx_audio_convert_spec q.
Proof.
  destruct (unsupported_stream_wedges hx_audio_convert_spec scenario_V true event_V
              (mkEntry 310 HX_CLASS_WAVE_RESOURCE_DATA
                 (wave_resource_data (mkWaveRes 410 [])))
              (mkEntry 410 HX_CLASS_WAVE_FILE_ID_OBJECT
                 (wave_file_data (mkWaveFile verse)))
              (mkEvent "V" 310) (mkWaveRes 410 []) (mkWaveFile verse) initial
              eq_refl eq_refl eq_refl eq_refl eq_refl eq_refl eq_refl eq_refl eq_refl)
    as (q & Hrun & Hw & _).
  - discriminate.
  - reflexivity.
  - exists q. split; [exact Hrun | exact Hw].
Defined.

(** ** The button of the player *)

(** X18: while a session is open, playing or paused, the button of
    the player switches between the two and changes nothing else: two
    clicks give back the player as it was. *)
Theorem PlayerButton_pause_resume
    (hx_audio_convert : hx_audio_stream -> hx_format -> convert_result)
    (hx : hx_t) (driver_ok : bool) (p : player) (playing : hx_entry)
    (Hevent : PlayingEvent p = Some playing)
    (Hqueue : AudioQueue p <> [])
    (Hopen : SDL_GetAudioStatus p <> SDL_AUDIO_STOPPED) :
  exists q,
    PlayerButton hx_audio_convert hx driver_ok p = Ok q /\
    q = set_device (match SDL_GetAudioStatus p with
                    | SDL_AUDIO_PAUSED => SDL_AUDIO_PLAYING
                    | _ => SDL_AUDIO_PAUSED
                    end) p /\
    PlayerButton hx_audio_convert hx driver_ok q = Ok p.
Proof.
  unfold PlayerButton, SDL_PauseAudio, SDL_GetAudioStatus in *.
  destruct p as [L P T I R V SR CC Q SQ LG PE dev rel]. cbn in *. subst PE.
  destruct Q as [|front rest]; [contradiction Hqueue; reflexivity|].
  change (0 <? Z.of_nat (List.length (front :: rest))) with true. cbv iota.
  destruct dev; [contradiction Hopen; reflexivity| |];
    eexists; (split; [reflexivity|]); split; reflexivity.
Qed.

(** X18, witness: [tone] is playing. *)
Lemma PlayerButton_pause_resume_witness :
  exists q,
    PlayerButton hx_audio_convert_spec scenario_B true
      (set_PlayingEvent (Some event_E) playing_tone) = Ok q /\
    PlayerButton hx_audio_convert_spec scenario_B true q =
      Ok (set_PlayingEvent (Some event_E) playing_tone).
Proof.
  destruct (PlayerButton_pause_resume hx_audio_convert_spec scenario_B true
              (set_PlayingEvent (Some event_E) playing_tone) event_E eq_refl)
    as (q & Hrun & _ & Hback).
  - discriminate.
  - discriminate.
  - exists q. split; [exact Hrun | exact Hback].
Defined.

(** ** The rows under a wave resource *)

Lemma rows_combine {A B : Type} (d : A) (g : nat -> B) (l : list A) :
  forall k,
    map (fun i => (nth (i - k) l d, g i)) (seq k (List.length l)) =
    combine l (map g (seq k (List.length l))).
Proof.
  induction l as [|x l IH]; intros k; [reflexivity|].
  cbn [List.length seq map combine]. rewrite Nat.sub_diag. cbn [nth]. f_equal.
  rewrite <- IH. apply map_ext_in. intros i Hi. apply in_seq in Hi.
  replace (i - k)%nat with (S (i - S k)) by lia. reflexivity.
Qed.

Lemma nth_error_beyond {A : Type} (l : list A) (extra : nat) :
  map (nth_error l) (seq 0 (List.length l + extra)) =
    map Some l ++ repeat None extra.
Proof.
  rewrite seq_app, map_app, nth_error_prefix, firstn_all by lia. f_equal.
  cbn [Nat.add]. rewrite seq_offset, map_map.
  assert (Hall : forall ks : list nat,
             map (fun k => nth_error l (List.length l + k)) ks =
             repeat None (List.length ks)).
  { induction ks as [|k ks IH]; [reflexivity|].
    cbn [map List.length repeat]. rewrite IH. f_equal.
    apply nth_error_None. lia. }
  rewrite Hall, length_seq. reflexivity.
Qed.

Section EntryTreeFacts.

Variable HX_BYTESWAP32 : Z -> Z.
Variables HX_LANGUAGE_DE HX_LANGUAGE_EN HX_LANGUAGE_ES
          HX_LANGUAGE_FR HX_LANGUAGE_IT : Z.

Local Abbreviation language_info :=
  (language_info HX_BYTESWAP32 HX_LANGUAGE_DE HX_LANGUAGE_EN HX_LANGUAGE_ES
                 HX_LANGUAGE_FR HX_LANGUAGE_IT).
Local Abbreviation EntryTableTree_next :=
  (EntryTableTree_next HX_BYTESWAP32 HX_LANGUAGE_DE HX_LANGUAGE_EN HX_LANGUAGE_ES
                       HX_LANGUAGE_FR HX_LANGUAGE_IT).
Local Abbreviation EntryTableTree_calls :=
  (EntryTableTree_calls HX_BYTESWAP32 HX_LANGUAGE_DE HX_LANGUAGE_EN HX_LANGUAGE_ES
                        HX_LANGUAGE_FR HX_LANGUAGE_IT).

(** The [switch] pushes one string or none. *)
Lemma language_info_one (language : Z) :
  language_info language =
    match hd_error (language_info language) with
    | Some s => [s]
    | None => []
    end.
Proof.
  unfold language_info.
  repeat match goal with |- context [if ?c then _ else _] => destruct c end;
    reflexivity.
Qed.

Lemma labels_of_links (ls : list (Z * Z)) :
  Forall (fun l => language_info (snd l) <> []) ls ->
  map Some (flat_map (fun l => language_info (snd l)) ls) =
    map (fun l => hd_error (language_info (snd l))) ls /\
  List.length (flat_map (fun l => language_info (snd l)) ls) = List.length ls.
Proof.
  induction 1 as [|l ls Hl _ [IH IHlen]]; [split; reflexivity|].
  cbn [flat_map map]. rewrite map_app, length_app, IH, IHlen.
  pose proof (language_info_one (snd l)) as Hone.
  destruct (hd_error (language_info (snd l))) as [s|];
    [|rewrite Hone in Hl; contradiction Hl; reflexivity].
  rewrite Hone. split; reflexivity.
Qed.

(** What the three [if]s collect for a wave resource. *)
Lemma EntryTableTree_next_wave_resource (hx : hx_t) (root : hx_entry)
    (w : hx_wav_resource_data) :
  i_class root = HX_CLASS_WAVE_RESOURCE_DATA ->
  e_data root = wave_resource_data w ->
  EntryTableTree_next hx true root =
    Ok ((if negb (default_cuuid w =? 0)
         then [hx_context_find_entry hx (default_cuuid w)] else [])
        ++ map (fun l => hx_context_find_entry hx (fst l)) (wav_links w),
        flat_map (fun l => language_info (snd l)) (wav_links w)).
Proof.
  intros Hclass Hdata. unfold EntryTableTree_next. rewrite Hclass.
  cbn [hx_class_eqb bind]. unfold as_wave_resource. rewrite Hdata. cbn [bind app].
  destruct (negb (default_cuuid w =? 0)); reflexivity.
Qed.

(** The rows of the last loop, in terms of [next] and [info_v]. *)
Lemma EntryTableTree_rows (next : list (option hx_entry)) (info_v : list string) :
  map (fun i => (nth i next None,
                 if 0 <? Z.of_nat (List.length info_v)
                 then nth_error info_v i else Some "--"%string))
      (seq 0 (List.length next)) =
  combine next
    (map (fun i => if 0 <? Z.of_nat (List.length info_v)
                   then nth_error info_v i else Some "--"%string)
         (seq 0 (List.length next))).
Proof.
  rewrite <- (rows_combine None _ next 0).
  apply map_ext. intros i. rewrite Nat.sub_0_r. reflexivity.
Qed.

(** X19: under a wave resource that has no default link and whose
    links all have one of the five languages of the [switch], there is
    one row for each link, in the order of the links, and the text of
    each row is the language of its own link. *)
Theorem EntryTableTree_labels_match (hx : hx_t) (root : hx_entry)
    (w : hx_wav_resource_data)
    (Hclass : i_class root = HX_CLASS_WAVE_RESOURCE_DATA)
    (Hdata : e_data root = wave_resource_data w)
    (Hnone : default_cuuid w = 0)
    (Hknown : Forall (fun l => language_info (snd l) <> []) (wav_links w)) :
  EntryTableTree_calls hx true (Some root) =
    Ok (map (fun l => (hx_context_find_entry hx (fst l),
                       hd_error (language_info (snd l))))
            (wav_links w)) /\
  Forall (fun l => hd_error (language_info (snd l)) <> None) (wav_links w).
Proof.
  split.
  - unfold EntryTableTree_calls.
    rewrite (EntryTableTree_next_wave_resource hx root w Hclass Hdata).
    rewrite Hnone. cbn [Z.eqb negb app bind].
    rewrite EntryTableTree_rows.
    destruct (labels_of_links _ Hknown) as [Hlabels Hlen].
    rewrite length_map.
    destruct (wav_links w) as [|l ls] eqn:El; [reflexivity|].
    rewrite Hlen.
    change (0 <? Z.of_nat (List.length (l :: ls))) with true. cbv iota.
    rewrite <- Hlen.
    pose proof (nth_error_beyond
                  (flat_map (fun l0 => language_info (snd l0)) (l :: ls)) 0) as Hb.
    rewrite Nat.add_0_r in Hb. cbn [repeat] in Hb. rewrite app_nil_r in Hb.
    match goal with |- context [map (fun i : nat => nth_error ?X i) ?S] =>
      change (map (fun i : nat => nth_error X i) S) with (map (nth_error X) S) end.
    rewrite Hb, Hlabels.
    generalize (l :: ls). intros links. f_equal.
    induction links as [|x xs IH]; [reflexivity|]. cbn. rewrite IH. reflexivity.
  - eapply Forall_impl; [|exact Hknown].
    intros l Hl Hn. cbv beta in Hl. rewrite (language_info_one (snd l)), Hn in Hl.
    contradiction Hl. reflexivity.
Qed.

(** X20: when the wave resource has a default link as well, the row of
    the default link comes first and takes the language of the first
    link, the row of each link takes the language of the link after
    it, and the text of the last row is read from [info_v] at an index
    past its end. *)
Theorem EntryTableTree_labels_shifted (hx : hx_t) (root : hx_entry)
    (w : hx_wav_resource_data)
    (Hclass : i_class root = HX_CLASS_WAVE_RESOURCE_DATA)
    (Hdata : e_data root = wave_resource_data w)
    (Hdefault : default_cuuid w <> 0)
    (Hlinks : wav_links w <> [])
    (Hknown : Forall (fun l => language_info (snd l) <> []) (wav_links w)) :
  EntryTableTree_calls hx true (Some root) =
    Ok (combine
          (hx_context_find_entry hx (default_cuuid w)
             :: map (fun l => hx_context_find_entry hx (fst l)) (wav_links w))
          (map (fun l => hd_error (language_info (snd l))) (wav_links w) ++ [None])).
Proof.
  unfold EntryTableTree_calls.
  rewrite (EntryTableTree_next_wave_resource hx root w Hclass Hdata).
  apply Z.eqb_neq in Hdefault. rewrite Hdefault. cbn [negb app bind].
  rewrite EntryTableTree_rows.
  destruct (labels_of_links _ Hknown) as [Hlabels Hlen].
  cbn [List.length]. rewrite length_map.
  destruct (wav_links w) as [|l ls] eqn:El; [contradiction Hlinks; reflexivity|].
  rewrite Hlen.
  change (0 <? Z.of_nat (List.length (l :: ls))) with true. cbv iota.
  rewrite <- Hlen.
  pose proof (nth_error_beyond
                (flat_map (fun l0 => language_info (snd l0)) (l :: ls)) 1) as Hb.
  rewrite Nat.add_1_r in Hb.
  match goal with |- context [map (fun i : nat => nth_error ?X i) ?S] =>
    change (map (fun i : nat => nth_error X i) S) with (map (nth_error X) S) end.
  rewrite Hb, Hlabels. reflexivity.
Qed.

End EntryTreeFacts.

(** X19, witness: the byte swap is the identity and the languages are
    numbered from 1 to 5. *)
Lemma EntryTableTree_labels_match_witness :
  EntryTableTree_calls (fun x => x) 1 2 3 4 5 scenario_B true (Some voices) =
    Ok [(hx_context_find_entry scenario_B 401, Some "EN"%string);
        (hx_context_find_entry scenario_B 402, Some "FR"%string)].
Proof.
  destruct (EntryTableTree_labels_match (fun x => x) 1 2 3 4 5 scenario_B voices
              (mkWaveRes 0 [(401, 2); (402, 4)]) eq_refl eq_refl eq_refl)
    as [Hrows _].
  - repeat constructor; discriminate.
  - exact Hrows.
Defined.

(** X20, witness: the same links under a default link. *)
Lemma EntryTableTree_labels_shifted_witness :
  EntryTableTree_calls (fun x => x) 1 2 3 4 5 scenario_B true (Some voices_with_default) =
    Ok [(hx_context_find_entry scenario_B 401, Some "EN"%string);
        (hx_context_find_entry scenario_B 401, Some "FR"%string);
        (hx_context_find_entry scenario_B 402, None)].
Proof.
  apply (EntryTableTree_labels_shifted (fun x => x) 1 2 3 4 5 scenario_B
           voices_with_default (mkWaveRes 401 [(401, 2); (402, 4)]) eq_refl eq_refl).
  - discriminate.
  - discriminate.
  - repeat constructor; discriminate.
Defined.

(** ** From the click to the last byte *)

Section PlayThrough.

Variable hx_audio_convert : hx_audio_stream -> hx_format -> convert_result.


End PlayThrough.

